(** * Home-automation adapters: Hive alarm panel, Rachio setup, PowerView shades

    A shallow embedding of three integration modules

      - [homeassistant/components/hive/alarm_control_panel.py]
      - [homeassistant/components/rachio/__init__.py]
      - [homeassistant/components/hunterdouglas_powerview/cover.py]

    and the properties their specification states about them.

    The Python code computes percentages with true division, which
    yields IEEE 754 binary64 values, so the arithmetic is modelled on
    the kernel's primitive floats and not on exact rationals. *)

From Stdlib Require Import ZArith List Lia Bool String.
From Stdlib Require Import Floats.
Import ListNotations.
Open Scope Z_scope.
Set Warnings "-inexact-float".

(** ** The fragment of the Python runtime the three modules rely on *)

Module Py.

(** Exceptions the modelled code raises, catches or lets through. *)
Inductive exn : Type :=
| ZeroDivisionError
| OverflowError
| ValueError
| KeyError
| TimeoutError
| CloudNotConnected
| ConfigEntryAuthFailed
| ConfigEntryNotReady
| ConnectTimeout
| OtherError (name : string).

(** The outcome of evaluating an expression: a value or a raised exception. *)
Inductive result (A : Type) : Type :=
| Ok (a : A)
| Raise (e : exn).
Arguments Ok {A} a.
Arguments Raise {A} e.

Definition bind {A B : Type} (m : result A) (k : A -> result B) : result B :=
  match m with
  | Ok a => k a
  | Raise e => Raise e
  end.

(** Dynamically typed values, as far as truthiness is concerned. *)
Inductive value : Type :=
| VNone
| VBool (b : bool)
| VInt (z : Z)
| VStr (s : string).

(** [bool(v)]: the truth value Python's [if v:] tests. *)
Definition truthy (v : value) : bool :=
  match v with
  | VNone => false
  | VBool b => b
  | VInt z => negb (z =? 0)
  | VStr s => negb (String.eqb s EmptyString)
  end.

(** *** Floats *)

(** Integers of magnitude below [2^53] are exactly representable. *)
Definition two53 : Z := 9007199254740992.

(** The float of an integer known to be below [2^53] in magnitude
    (exact; the hardware conversion from a 63-bit integer). *)
Definition exact_float (z : Z) : float :=
  let a := PrimFloat.of_uint63 (Uint63.of_Z (Z.abs z)) in
  if z <? 0 then (- a)%float else a.

(** [float(z)] for an [int]: the nearest float (ties to even);
    [OverflowError] when the integer is too large. *)
Definition float_of_int (z : Z) : result float :=
  let f := if Z.abs z <? two53 then exact_float z
           else SF2Prim (binary_normalize prec emax z 0 false) in
  if PrimFloat.is_infinity f then Raise OverflowError else Ok f.

(** An integer seen as an unrounded binary number with exponent [0]. *)
Definition unrounded (z : Z) : spec_float :=
  match z with
  | Z0 => S754_zero false
  | Zpos p => S754_finite false p 0
  | Zneg p => S754_finite true p 0
  end.

(** [a / b] on two [int]s (true division): the float nearest to the
    exact quotient.  Operands below [2^53] are converted and divided;
    larger ones go through the quotient of the integers themselves, so
    no operand is rounded before the division. *)
Definition int_truediv (a b : Z) : result float :=
  if b =? 0 then Raise ZeroDivisionError
  else if (Z.abs a <? two53) && (Z.abs b <? two53)
  then Ok (exact_float a / exact_float b)%float
  else
    let q := SF2Prim (SFdiv prec emax (unrounded a) (unrounded b)) in
    if PrimFloat.is_infinity q then Raise OverflowError else Ok q.

(** [x * n] and [n * x] for a float [x] and an [int] [n]: the integer is
    first converted. *)
Definition float_mul_int (x : float) (n : Z) : result float :=
  bind (float_of_int n) (fun y => Ok (x * y)%float).

Definition int_mul_float (n : Z) (x : float) : result float :=
  bind (float_of_int n) (fun y => Ok (y * x)%float).

(** A finite non-zero float has magnitude [m * 2^e] for the pair
    returned here ([m] is its 53-bit mantissa). *)
Definition float_parts (x : float) : Z * Z :=
  let (r, e) := Z.frexp (PrimFloat.abs x) in
  (Uint63.to_Z (PrimFloat.normfr_mantissa r), e - 53).

(** The magnitude of a finite non-zero float as [q + r / h] with
    [0 <= r < h]: integer part, remainder and the remainder's unit. *)
Definition float_split (x : float) : Z * Z * Z :=
  let (m, e) := float_parts x in
  if 0 <=? e then (Z.shiftl m e, 0, 1)
  else
    let q := Z.shiftr m (- e) in
    (q, m - Z.shiftl q (- e), Z.shiftl 1 (- e)).

Definition with_sign (x : float) (a : Z) : Z :=
  if (x <? 0)%float then - a else a.

(** [int(x)]: truncation toward zero. *)
Definition py_int (x : float) : result Z :=
  if PrimFloat.is_nan x then Raise ValueError
  else if PrimFloat.is_infinity x then Raise OverflowError
  else if PrimFloat.is_zero x then Ok 0
  else
    let '(q, _, _) := float_split x in
    Ok (with_sign x q).

(** [round(x)] with one argument: the nearest integer, ties to even. *)
Definition py_round (x : float) : result Z :=
  if PrimFloat.is_nan x then Raise ValueError
  else if PrimFloat.is_infinity x then Raise OverflowError
  else if PrimFloat.is_zero x then Ok 0
  else
    let '(q, r, h) := float_split x in
    let a :=
      match 2 * r ?= h with
      | Lt => q
      | Gt => q + 1
      | Eq => if Z.even q then q else q + 1
      end in
    Ok (with_sign x a).

(** [floor(x)] of a finite float, used to compare an [int] with it. *)
Definition float_floor (x : float) : Z :=
  if PrimFloat.is_zero x then 0
  else
    let '(q, r, _) := float_split x in
    if (x <? 0)%float then (if r =? 0 then - q else - (q + 1)) else q.

(** [a <= x] for an [int] [a] and a float [x]: Python compares the exact
    values. *)
Definition int_le_float (a : Z) (x : float) : bool :=
  if PrimFloat.is_nan x then false
  else if PrimFloat.is_infinity x then (0 <? x)%float
  else a <=? float_floor x.

End Py.

Import Py.

Notation "x <- m ;; k" := (Py.bind m (fun x => k))
  (at level 61, m at next level, right associativity).

(** Checking a decidable property on every integer of a range. *)
Fixpoint all_from (f : Z -> bool) (n : nat) (i : Z) : bool :=
  match n with
  | O => true
  | S n' => if f i then all_from f n' (i + 1) else false
  end.

Definition result_is (r : result Z) (z : Z) : bool :=
  match r with
  | Ok a => a =? z
  | Raise _ => false
  end.

(** ** Hive alarm panel: [hive/alarm_control_panel.py] *)

Module Hive.

(** The host's alarm states ([homeassistant.const]). *)
Inductive alarm_state : Type :=
| STATE_ALARM_DISARMED
| STATE_ALARM_ARMED_NIGHT
| STATE_ALARM_ARMED_AWAY
| STATE_ALARM_TRIGGERED.

(** The vendor's mode strings and the host state each stands for; a
    string that is not a key has no entry. *)
Definition HIVETOHA (mode : string) : option alarm_state :=
  if String.eqb mode "home" then Some STATE_ALARM_DISARMED
  else if String.eqb mode "asleep" then Some STATE_ALARM_ARMED_NIGHT
  else if String.eqb mode "away" then Some STATE_ALARM_ARMED_AWAY
  else None.

(** What [hive.alarm.getAlarm] returns, as far as [async_update] reads
    it: [deviceData.get("online")] ([VNone] when the key is absent),
    [status["state"]] (the triggered flag) and [status["mode"]].  The
    record stands for a report that was fetched and has its
    [deviceData] and [status] entries: a fetch that raises, and a report
    without them, are outside it. *)
Record device : Type := {
  online : value;
  status_state : value;
  status_mode : string
}.

Record entity : Type := {
  entity_device : device;
  _attr_available : value;
  _attr_state : option alarm_state
}.

(** The mode strings the three arming commands send with [setMode]. *)
Definition async_alarm_disarm : string := "home".
Definition async_alarm_arm_night : string := "asleep".
Definition async_alarm_arm_away : string := "away".

(** [async_update] from the point where the device data has been
    fetched, given that data.  The state is written only when the device
    is available; an unknown mode string makes the table lookup raise
    [KeyError]. *)
Definition async_update (fetched : device) (self : entity) : result entity :=
  let available := online fetched in
  if truthy available then
    if truthy (status_state fetched) then
      Ok {| entity_device := fetched;
            _attr_available := available;
            _attr_state := Some STATE_ALARM_TRIGGERED |}
    else
      match HIVETOHA (status_mode fetched) with
      | Some st =>
          Ok {| entity_device := fetched;
                _attr_available := available;
                _attr_state := Some st |}
      | None => Raise KeyError
      end
  else
    Ok {| entity_device := fetched;
          _attr_available := available;
          _attr_state := _attr_state self |}.

(** The three arming methods, the mode string each sends and the host
    state each is named for. *)
Inductive arming : Type :=
| alarm_disarm
| alarm_arm_night
| alarm_arm_away.

Definition mode_sent (c : arming) : string :=
  match c with
  | alarm_disarm => async_alarm_disarm
  | alarm_arm_night => async_alarm_arm_night
  | alarm_arm_away => async_alarm_arm_away
  end.

Definition state_requested (c : arming) : alarm_state :=
  match c with
  | alarm_disarm => STATE_ALARM_DISARMED
  | alarm_arm_night => STATE_ALARM_ARMED_NIGHT
  | alarm_arm_away => STATE_ALARM_ARMED_AWAY
  end.

End Hive.

(** ** Rachio irrigation controller: [rachio/__init__.py] *)

Module Rachio.

(** The config entry: [entry.data] and [entry.options], as far as the
    setup reads them. *)
Record entry : Type := {
  entry_id : string;
  config_api_key : option string;
  config_manual_run_mins : option Z;
  options_manual_run_mins : option Z
}.

(** The vendor client built by [Rachio(api_key)]. *)
Record rachio : Type := {
  api_key : string;
  webhook_auth : string;
  webhook_url : string
}.

(** A [RachioPerson] after its [async_setup]. *)
Record person : Type := {
  person_rachio : rachio;
  username : string;
  controllers : list string
}.

(** What the collaborators answer during one setup: the random token of
    [secrets.token_hex], the webhook id and url (or the exception the
    registration raises), and the account's user name and controllers
    (or the exception [person.async_setup] raises). *)
Record answers : Type := {
  token_hex : string;
  registered_webhook : result (string * string);
  person_async_setup : result (string * list string)
}.

Inductive log_record : Type :=
| log_error (msg : string)
| log_info (msg : string).

(** The host state the setup writes: whether [hass.data] has the
    [DOMAIN] key ([has_domain]) and the entries of [hass.data[DOMAIN]]
    when it has ([data]), the webhooks handed to
    [async_register_webhook], the entries whose platforms were set up,
    and the log. *)
Record hass : Type := {
  has_domain : bool;
  data : list (string * person);
  webhooks : list (string * string);
  platforms : list string;
  log : list log_record
}.

(** The entries of [hass.data[DOMAIN]]: none while the key is missing. *)
Definition domain_entries (h : hass) : list (string * person) :=
  if has_domain h then data h else [].

Definition add_log (r : log_record) (h : hass) : hass :=
  {| has_domain := has_domain h; data := data h; webhooks := webhooks h;
     platforms := platforms h; log := log h ++ [r] |}.

(** [options.get(key)] and [config.get(key)] as conditions: a missing
    key and [0] are both false. *)
Definition truthy_mins (m : option Z) : bool :=
  match m with
  | Some z => negb (z =? 0)
  | None => false
  end.

(** The yaml import of [CONF_MANUAL_RUN_MINS] into the options. *)
Definition import_manual_run_mins (e : entry) : entry :=
  if negb (truthy_mins (options_manual_run_mins e))
     && truthy_mins (config_manual_run_mins e)
  then {| entry_id := entry_id e;
          config_api_key := config_api_key e;
          config_manual_run_mins := config_manual_run_mins e;
          options_manual_run_mins := config_manual_run_mins e |}
  else e.

(** [async_setup_entry]: the host state and entry after the call, and
    what the call returns or raises. *)
Definition async_setup_entry (a : answers) (h : hass) (e : entry)
  : hass * entry * result bool :=
  let e := import_manual_run_mins e in
  match config_api_key e with
  | None => (h, e, Raise KeyError)
  | Some key =>
      match registered_webhook a with
      | Raise CloudNotConnected => (h, e, Raise ConfigEntryNotReady)
      | Raise exc => (h, e, Raise exc)
      | Ok (webhook_id, url) =>
          let r := {| api_key := key; webhook_auth := token_hex a;
                      webhook_url := url |} in
          match person_async_setup a with
          | Raise ConfigEntryAuthFailed =>
              (add_log (log_error "Authentication failed") h, e, Ok false)
          | Raise ConnectTimeout =>
              (add_log (log_error "Could not reach the Rachio API") h, e,
               Raise ConfigEntryNotReady)
          | Raise exc => (h, e, Raise exc)
          | Ok (name, ctrls) =>
              let p := {| person_rachio := r; username := name;
                          controllers := ctrls |} in
              match ctrls with
              | [] =>
                  (add_log (log_error "No Rachio devices found in account") h,
                   e, Ok false)
              | _ :: _ =>
                  let h := add_log (log_info "Rachio device(s) found") h in
                  ({| has_domain := true;
                      data := (entry_id e, p) :: domain_entries h;
                      webhooks := (webhook_id, entry_id e) :: webhooks h;
                      platforms := entry_id e :: platforms h;
                      log := log h |}, e, Ok true)
              end
          end
      end
  end.

(** [key in d] for the per-entry store. *)
Definition has_key (k : string) (d : list (string * person)) : bool :=
  existsb (fun kv => String.eqb (fst kv) k) d.

(** [d.pop(key)]: the store without the key; [KeyError] when the key is
    not in it. *)
Definition pop (k : string) (d : list (string * person))
  : result (list (string * person)) :=
  if has_key k d
  then Ok (filter (fun kv => negb (String.eqb (fst kv) k)) d)
  else Raise KeyError.


(** [async_unload_entry], given what unloading the platforms answers.
    [hass.data[DOMAIN].pop(entry_id)] raises [KeyError] when the domain
    key is missing as when the entry is not stored under it. *)
Definition async_unload_entry (unload_ok : bool) (h : hass) (e : entry)
  : hass * result bool :=
  if unload_ok then
    match pop (entry_id e) (domain_entries h) with
    | Ok d =>
        ({| has_domain := has_domain h; data := d; webhooks := webhooks h;
            platforms := platforms h; log := log h |}, Ok unload_ok)
    | Raise exc => (h, Raise exc)
    end
  else (h, Ok unload_ok).

End Rachio.

(** ** PowerView shades: [hunterdouglas_powerview/cover.py] *)

Module Powerview.

(** Range of a vendor position, from the vendor library
    ([aiopvapi.resources.shade]). *)
Definition MAX_POSITION : Z := 65535.
Definition MIN_POSITION : Z := 0.

(** Estimated time it takes to complete a transition from one state to
    another, and the delay of the resync that follows it. *)
Definition TRANSITION_COMPLETE_DURATION : Z := 40.
Definition RESYNC_DELAY : Z := 60.

(** [CLOSED_POSITION = (0.75 / 100) * (MAX_POSITION - MIN_POSITION)] *)
Definition CLOSED_POSITION : float :=
  ((0.75 / exact_float 100) * exact_float (MAX_POSITION - MIN_POSITION))%float.

(** [round((hd_position / max_val) * 100)] *)
Definition hd_position_to_hass (hd_position max_val : Z) : result Z :=
  q <- int_truediv hd_position max_val ;;
  x <- float_mul_int q 100 ;;
  py_round x.

(** [int(hass_position / 100 * max_val)] *)
Definition hass_position_to_hd (hass_position max_val : Z) : result Z :=
  q <- int_truediv hass_position 100 ;;
  x <- float_mul_int q max_val ;;
  py_int x.

(** [1 + int(TRANSITION_COMPLETE_DURATION * (steps / 100))] *)
Definition est_time_to_complete_transition (steps : Z) : result Z :=
  q <- int_truediv steps 100 ;;
  x <- int_mul_float TRANSITION_COMPLETE_DURATION q ;;
  t <- py_int x ;;
  Ok (1 + t).

(** *** Positions and move requests *)

Inductive pos_kind : Type :=
| POS_KIND_PRIMARY
| POS_KIND_SECONDARY
| POS_KIND_VANE.

(** The positions block of the vendor API, in requests, responses and
    raw shade data: [position1]/[posKind1] and [position2]/[posKind2],
    each pair present or absent. *)
Record position_data : Type := {
  position1 : option (pos_kind * Z);
  position2 : option (pos_kind * Z)
}.

(** The three positions the coordinator keeps for a shade. *)
Record PowerviewShadePositions : Type := {
  primary : Z;
  secondary : Z;
  vane : Z
}.

Definition no_positions : PowerviewShadePositions :=
  {| primary := 0; secondary := 0; vane := 0 |}.

(** Modelled from the spec: [shade_data.py] is not among the sources.
    Storing one position of a given kind. *)
Definition update_shade_position (kind : pos_kind) (position : Z)
  (p : PowerviewShadePositions) : PowerviewShadePositions :=
  match kind with
  | POS_KIND_PRIMARY =>
      {| primary := position; secondary := secondary p; vane := vane p |}
  | POS_KIND_SECONDARY =>
      {| primary := primary p; secondary := position; vane := vane p |}
  | POS_KIND_VANE =>
      {| primary := primary p; secondary := secondary p; vane := position |}
  end.

(** Modelled from the spec: [shade_data.py] is not among the sources.
    Applying the positions block of an authoritative response or of raw
    shade data. *)
Definition update_from_position_data (d : position_data) (p : PowerviewShadePositions)
  : PowerviewShadePositions :=
  let p := match position1 d with
           | Some (k, v) => update_shade_position k v p
           | None => p
           end in
  match position2 d with
  | Some (k, v) => update_shade_position k v p
  | None => p
  end.

(** [PowerviewShadeMove]: the request to send and the positions the hub
    will not echo back. *)
Record PowerviewShadeMove : Type := {
  request : position_data;
  new_positions : list (pos_kind * Z)
}.

(** *** The entity and what surrounds it *)

Inductive shade_class : Type :=
| PowerViewShade
| PowerViewShadeTDBUBottom
| PowerViewShadeTDBUTop
| PowerViewShadeWithTilt
| PowerViewShadeSilhouette.

(** The two delayed callbacks an entity hands to [async_call_later]. *)
Inductive action : Type :=
| cb_complete_schedule_update
| cb_force_resync.

(** A pending delayed call of the host loop; [timer_handle] identifies
    the cancel callable [async_call_later] returned for it. *)
Record timer : Type := {
  timer_handle : nat;
  timer_delay : Z;
  timer_action : action
}.

(** The entity's own fields. *)
Record entity : Type := {
  cls : shade_class;
  _scheduled_transition_update : option nat;
  _forced_resync : option nat;
  _attr_is_opening : bool;
  _attr_is_closing : bool
}.

(** The entity with what its methods read and write around it: the
    vendor shade's fixed open and close requests, the coordinator's
    positions of the shade, the host loop's pending delayed calls, and
    the requests sent to the hub. *)
Record state : Type := {
  self : entity;
  shade_open_position : position_data;
  shade_close_position : position_data;
  positions : PowerviewShadePositions;
  timers : list timer;
  next_handle : nat;
  sent : list position_data
}.

Definition with_self (e : entity) (s : state) : state :=
  {| self := e;
     shade_open_position := shade_open_position s;
     shade_close_position := shade_close_position s;
     positions := positions s; timers := timers s;
     next_handle := next_handle s; sent := sent s |}.

Definition with_positions (p : PowerviewShadePositions) (s : state) : state :=
  {| self := self s;
     shade_open_position := shade_open_position s;
     shade_close_position := shade_close_position s;
     positions := p; timers := timers s;
     next_handle := next_handle s; sent := sent s |}.

Definition with_timers (l : list timer) (n : nat) (s : state) : state :=
  {| self := self s;
     shade_open_position := shade_open_position s;
     shade_close_position := shade_close_position s;
     positions := positions s; timers := l;
     next_handle := n; sent := sent s |}.

Definition with_sent (l : list position_data) (s : state) : state :=
  {| self := self s;
     shade_open_position := shade_open_position s;
     shade_close_position := shade_close_position s;
     positions := positions s; timers := timers s;
     next_handle := next_handle s; sent := l |}.

Definition set_scheduled_transition_update (h : option nat) (e : entity)
  : entity :=
  {| cls := cls e; _scheduled_transition_update := h;
     _forced_resync := _forced_resync e;
     _attr_is_opening := _attr_is_opening e;
     _attr_is_closing := _attr_is_closing e |}.

Definition set_forced_resync (h : option nat) (e : entity) : entity :=
  {| cls := cls e;
     _scheduled_transition_update := _scheduled_transition_update e;
     _forced_resync := h;
     _attr_is_opening := _attr_is_opening e;
     _attr_is_closing := _attr_is_closing e |}.

Definition set_moving (opening closing : bool) (e : entity) : entity :=
  {| cls := cls e;
     _scheduled_transition_update := _scheduled_transition_update e;
     _forced_resync := _forced_resync e;
     _attr_is_opening := opening;
     _attr_is_closing := closing |}.

(** A method: it changes the state and returns or raises.  The state
    reached when an exception is raised is kept, as the writes made
    before the [raise] are. *)
Definition M (A : Type) : Type := state -> state * result A.

Definition ret {A : Type} (a : A) : M A := fun s => (s, Ok a).

Definition mbind {A B : Type} (m : M A) (k : A -> M B) : M B :=
  fun s =>
    match m s with
    | (s', Ok a) => k a s'
    | (s', Raise e) => (s', Raise e)
    end.

(** An expression that only reads the state. *)
Definition eval {A : Type} (f : state -> result A) : M A :=
  fun s => (s, f s).

(** A write. *)
Definition modify (f : state -> state) : M unit :=
  fun s => (f s, Ok tt).

Notation "x <~ m ;; k" := (mbind m (fun x => k))
  (at level 61, m at next level, right associativity).
Notation "m >> k" := (mbind m (fun _ => k))
  (at level 61, right associativity).

(** *** The host loop's delayed calls *)

Definition has_handle (h : nat) (t : timer) : bool :=
  Nat.eqb (timer_handle t) h.

(** Calling the cancel callable of handle [h]. *)
Definition cancel_timer (h : nat) (s : state) : state :=
  with_timers (filter (fun t => negb (has_handle h t)) (timers s))
    (next_handle s) s.

(** [async_call_later(hass, delay, action)]: a new pending call; the
    value returned identifies its cancel callable. *)
Definition async_call_later (delay : Z) (a : action) : M nat :=
  fun s =>
    let h := next_handle s in
    (with_timers
       (timers s ++ [{| timer_handle := h; timer_delay := delay;
                        timer_action := a |}])
       (S h) s,
     Ok h).

(** The loop takes a due call out of its pending ones before running
    the callback. *)
Definition fire (t : timer) (s : state) : state :=
  cancel_timer (timer_handle t) s.

Definition is_transition (t : timer) : bool :=
  match timer_action t with
  | cb_complete_schedule_update => true
  | cb_force_resync => false
  end.

(** The pending transition-completion polls. *)
Definition pending_transitions (s : state) : list timer :=
  filter is_transition (timers s).

(** *** Properties of the entity, by class *)

Definition is_tdbu (c : shade_class) : bool :=
  match c with
  | PowerViewShadeTDBUBottom | PowerViewShadeTDBUTop => true
  | _ => false
  end.

(** [_max_tilt], an attribute of the tilt classes alone. *)
Definition _max_tilt (c : shade_class) : result Z :=
  match c with
  | PowerViewShadeWithTilt => Ok MAX_POSITION
  | PowerViewShadeSilhouette => Ok 32767
  | _ => Raise (OtherError "AttributeError")
  end.

Definition is_closed (s : state) : bool :=
  match cls (self s) with
  | PowerViewShadeTDBUTop => int_le_float (secondary (positions s)) CLOSED_POSITION
  | _ => int_le_float (primary (positions s)) CLOSED_POSITION
  end.

Definition current_cover_position (s : state) : result Z :=
  match cls (self s) with
  | PowerViewShadeTDBUTop => hd_position_to_hass (secondary (positions s)) MAX_POSITION
  | _ => hd_position_to_hass (primary (positions s)) MAX_POSITION
  end.

Definition current_cover_tilt_position (s : state) : result Z :=
  m <- _max_tilt (cls (self s)) ;;
  hd_position_to_hass (vane (positions s)) m.

Definition transition_steps (s : state) : result Z :=
  match cls (self s) with
  | PowerViewShade => hd_position_to_hass (primary (positions s)) MAX_POSITION
  | PowerViewShadeTDBUBottom | PowerViewShadeTDBUTop =>
      a <- hd_position_to_hass (primary (positions s)) MAX_POSITION ;;
      b <- hd_position_to_hass (secondary (positions s)) MAX_POSITION ;;
      Ok (a + b)
  | PowerViewShadeWithTilt | PowerViewShadeSilhouette =>
      a <- hd_position_to_hass (primary (positions s)) MAX_POSITION ;;
      m <- _max_tilt (cls (self s)) ;;
      b <- hd_position_to_hass (vane (positions s)) m ;;
      Ok (a + b)
  end.

Definition is_tilt (c : shade_class) : bool :=
  match c with
  | PowerViewShadeWithTilt | PowerViewShadeSilhouette => true
  | _ => false
  end.

Definition open_position (s : state) : PowerviewShadeMove :=
  {| request := shade_open_position s;
     new_positions :=
       if is_tilt (cls (self s)) then [(POS_KIND_VANE, MIN_POSITION)] else [] |}.

Definition close_position (s : state) : PowerviewShadeMove :=
  {| request := shade_close_position s;
     new_positions :=
       if is_tilt (cls (self s)) then [(POS_KIND_VANE, MIN_POSITION)] else [] |}.

Definition open_tilt_position (s : state) : result PowerviewShadeMove :=
  m <- _max_tilt (cls (self s)) ;;
  Ok {| request := {| position1 := Some (POS_KIND_VANE, m); position2 := None |};
        new_positions := [(POS_KIND_PRIMARY, MIN_POSITION)] |}.

Definition close_tilt_position (s : state) : result PowerviewShadeMove :=
  _ <- _max_tilt (cls (self s)) ;;
  Ok {| request := {| position1 := Some (POS_KIND_VANE, MIN_POSITION);
                      position2 := None |};
        new_positions := [(POS_KIND_PRIMARY, MIN_POSITION)] |}.

(** Dont allow a cover to go into an impossible position. *)
Definition _clamp_cover_limit (target_hass_position : Z) (s : state) : result Z :=
  match cls (self s) with
  | PowerViewShadeTDBUBottom =>
      cover_top <- hd_position_to_hass (secondary (positions s)) MAX_POSITION ;;
      Ok (Z.min target_hass_position (100 - cover_top))
  | PowerViewShadeTDBUTop =>
      cover_bottom <- hd_position_to_hass (primary (positions s)) MAX_POSITION ;;
      Ok (Z.min target_hass_position (100 - cover_bottom))
  | _ => Ok target_hass_position
  end.

Definition _get_shade_move (target_hass_position : Z) (s : state)
  : result PowerviewShadeMove :=
  match cls (self s) with
  | PowerViewShade =>
      position_one <- hass_position_to_hd target_hass_position MAX_POSITION ;;
      Ok {| request := {| position1 := Some (POS_KIND_PRIMARY, position_one);
                          position2 := None |};
            new_positions := [] |}
  | PowerViewShadeTDBUBottom =>
      position_bottom <- hass_position_to_hd target_hass_position MAX_POSITION ;;
      let position_top := secondary (positions s) in
      Ok {| request := {| position1 := Some (POS_KIND_PRIMARY, position_bottom);
                          position2 := Some (POS_KIND_SECONDARY, position_top) |};
            new_positions := [] |}
  | PowerViewShadeTDBUTop =>
      let position_bottom := primary (positions s) in
      position_top <- hass_position_to_hd target_hass_position MAX_POSITION ;;
      Ok {| request := {| position1 := Some (POS_KIND_PRIMARY, position_bottom);
                          position2 := Some (POS_KIND_SECONDARY, position_top) |};
            new_positions := [] |}
  | PowerViewShadeWithTilt | PowerViewShadeSilhouette =>
      position_shade <- hass_position_to_hd target_hass_position MAX_POSITION ;;
      Ok {| request := {| position1 := Some (POS_KIND_PRIMARY, position_shade);
                          position2 := None |};
            new_positions := [(POS_KIND_VANE, MIN_POSITION)] |}
  end.

Definition _get_shade_tilt (target_hass_tilt_position : Z) (s : state)
  : result PowerviewShadeMove :=
  m <- _max_tilt (cls (self s)) ;;
  position_vane <- hass_position_to_hd target_hass_tilt_position m ;;
  Ok {| request := {| position1 := Some (POS_KIND_VANE, position_vane);
                      position2 := None |};
        new_positions := [(POS_KIND_PRIMARY, MIN_POSITION)] |}.

Definition _update_in_progress (s : state) : bool :=
  match _scheduled_transition_update (self s), _forced_resync (self s) with
  | None, None => false
  | _, _ => true
  end.

(** *** Scheduling *)

(** Cancel any previous updates. *)
Definition _async_cancel_scheduled_transition_update : M unit :=
  modify (fun s =>
         match _scheduled_transition_update (self s) with
         | Some h =>
             let s := cancel_timer h s in
             with_self (set_scheduled_transition_update None (self s)) s
         | None => s
         end) >>
  modify (fun s =>
    match _forced_resync (self s) with
    | Some h =>
        let s := cancel_timer h s in
        with_self (set_forced_resync None (self s)) s
    | None => s
    end).

Definition _async_schedule_update_for_transition (steps : Z) : M unit :=
  _async_cancel_scheduled_transition_update >>
  est <~ eval (fun _ => est_time_to_complete_transition steps) ;;
  h <~ async_call_later est cb_complete_schedule_update ;;
  modify (fun s => with_self (set_scheduled_transition_update (Some h) (self s)) s).

(** *** Moves *)

(** Execute a move that can affect multiple positions.  [response] is
    what the hub answers to the request: the positions block of its
    response when it has one, or the exception the call raises. *)
Definition _async_execute_move (move : PowerviewShadeMove)
  (response : result (option position_data)) : M unit :=
  modify (fun s => with_sent (sent s ++ [request move]) s) >>
  r <~ eval (fun _ => response) ;;
  modify (fun s =>
         with_positions
           (fold_left (fun p kv => update_shade_position (fst kv) (snd kv) p)
              (new_positions move) (positions s)) s) >>
  modify (fun s =>
    match r with
    | Some d => with_positions (update_from_position_data d (positions s)) s
    | None => s
    end).

Definition set_flags (opening closing : bool) : M unit :=
  modify (fun s => with_self (set_moving opening closing (self s)) s).

Definition async_close_cover (response : result (option position_data)) : M unit :=
  steps <~ eval transition_steps ;;
  _async_schedule_update_for_transition steps >>
  (fun s => _async_execute_move (close_position s) response s) >>
  set_flags false true.

Definition async_open_cover (response : result (option position_data)) : M unit :=
  steps <~ eval transition_steps ;;
  _async_schedule_update_for_transition (100 - steps) >>
  (fun s => _async_execute_move (open_position s) response s) >>
  set_flags true false.

Definition _async_set_cover_position (target_hass_position : Z)
  (response : result (option position_data)) : M unit :=
  target_hass_position <~ eval (_clamp_cover_limit target_hass_position) ;;
  current_hass_position <~ eval current_cover_position ;;
  _async_schedule_update_for_transition
         (Z.abs (current_hass_position - target_hass_position)) >>
  move <~ eval (_get_shade_move target_hass_position) ;;
  _async_execute_move move response >>
  set_flags (current_hass_position <? target_hass_position)
            (target_hass_position <? current_hass_position).

Definition async_close_cover_tilt (response : result (option position_data)) : M unit :=
  steps <~ eval transition_steps ;;
  _async_schedule_update_for_transition steps >>
  move <~ eval close_tilt_position ;;
  _async_execute_move move response.

Definition async_open_cover_tilt (response : result (option position_data)) : M unit :=
  steps <~ eval transition_steps ;;
  _async_schedule_update_for_transition (100 - steps) >>
  move <~ eval open_tilt_position ;;
  _async_execute_move move response.

Definition _async_set_cover_tilt_position (target_hass_tilt_position : Z)
  (response : result (option position_data)) : M unit :=
  position <~ eval current_cover_position ;;
  let final_position := position + target_hass_tilt_position in
  steps <~ eval transition_steps ;;
  _async_schedule_update_for_transition (Z.abs (steps - final_position)) >>
  move <~ eval (_get_shade_tilt target_hass_tilt_position) ;;
  _async_execute_move move response.

(** *** Refreshes and the delayed callbacks *)

(** Update the current cover position from the data. *)
Definition _async_update_shade_data (shade_data : position_data) : M unit :=
  modify (fun s => with_positions (update_from_position_data shade_data (positions s)) s) >>
  set_flags false false.

(** Refresh shade position.  [refreshed] is the positions block of the
    raw data the hub returns, or the exception the refresh raises. *)
Definition async_update (refreshed : result position_data) : M unit :=
  fun s =>
    if _update_in_progress s then (s, Ok tt)
    else (r <~ eval (fun _ => refreshed) ;; _async_update_shade_data r) s.

(** Update with new data from the coordinator: skipped while a delayed
    call is outstanding.  [group] is the positions block the coordinator
    holds for the shade. *)
Definition _async_update_shade_from_group (group : position_data) : M unit :=
  fun s =>
    if _update_in_progress s then (s, Ok tt)
    else modify (fun s =>
           with_positions (update_from_position_data group (positions s)) s) s.

Definition _async_force_refresh_state (refreshed : result position_data) : M unit :=
  async_update refreshed.

(** The part of the callback that runs when the delayed call fires, up
    to the refresh it awaits. *)
Definition complete_schedule_update_begin : M unit :=
  modify (fun s => with_self (set_scheduled_transition_update None (self s)) s).

(** The part that runs once the refresh is over: the resync is armed. *)
Definition complete_schedule_update_end : M unit :=
  h <~ async_call_later RESYNC_DELAY cb_force_resync ;;
  modify (fun s => with_self (set_forced_resync (Some h) (self s)) s).

(** Update status of the cover. *)
Definition _async_complete_schedule_update (refreshed : result position_data) : M unit :=
  complete_schedule_update_begin >>
  _async_force_refresh_state refreshed >>
  complete_schedule_update_end.

Definition force_resync_begin : M unit :=
  modify (fun s => with_self (set_forced_resync None (self s)) s).

(** Force a resync after an update since the hub may have stale state. *)
Definition _async_force_resync (refreshed : result position_data) : M unit :=
  force_resync_begin >>
  _async_force_refresh_state refreshed.

(** Stop the cover; [response] is the hub's answer to the stop. *)
Definition async_stop_cover (response : result (option position_data))
  (refreshed : result position_data) : M unit :=
  _async_cancel_scheduled_transition_update >>
  r <~ eval (fun _ => response) ;;
  modify (fun s =>
         match r with
         | Some d => with_positions (update_from_position_data d (positions s)) s
         | None => s
         end) >>
  _async_force_refresh_state refreshed.

(** Cancel any pending refreshes. *)
Definition async_will_remove_from_hass : M unit :=
  _async_cancel_scheduled_transition_update.

(** A new entity: no delayed call of its own is pending. *)
Definition new_entity (c : shade_class) : entity :=
  {| cls := c; _scheduled_transition_update := None; _forced_resync := None;
     _attr_is_opening := false; _attr_is_closing := false |}.

Definition initial (c : shade_class) (open close : position_data)
  (p : PowerviewShadePositions) : state :=
  {| self := new_entity c; shade_open_position := open;
     shade_close_position := close; positions := p; timers := [];
     next_handle := O; sent := [] |}.

(** What the host and the loop can make an entity do. *)
Inductive call : Type :=
| call_open (response : result (option position_data))
| call_close (response : result (option position_data))
| call_set_position (target : Z) (response : result (option position_data))
| call_open_tilt (response : result (option position_data))
| call_close_tilt (response : result (option position_data))
| call_set_tilt_position (target : Z) (response : result (option position_data))
| call_stop (response : result (option position_data)) (refreshed : result position_data)
| call_remove
| call_update (refreshed : result position_data)
| call_group_update (group : position_data).

Definition run (c : call) : M unit :=
  match c with
  | call_open r => async_open_cover r
  | call_close r => async_close_cover r
  | call_set_position t r => _async_set_cover_position t r
  | call_open_tilt r => async_open_cover_tilt r
  | call_close_tilt r => async_close_cover_tilt r
  | call_set_tilt_position t r => _async_set_cover_tilt_position t r
  | call_stop r f => async_stop_cover r f
  | call_remove => async_will_remove_from_hass
  | call_update f => async_update f
  | call_group_update g => _async_update_shade_from_group g
  end.

(** The rest of the two callbacks once the refresh they awaited is
    over: the refreshed data is taken (an exception of the refresh ends
    the callback there), and the first callback arms the resync. *)
Definition complete_schedule_update_resume (refreshed : result position_data)
  : M unit :=
  r <~ eval (fun _ => refreshed) ;;
  _async_update_shade_data r >>
  complete_schedule_update_end.

Definition force_resync_resume (refreshed : result position_data) : M unit :=
  r <~ eval (fun _ => refreshed) ;;
  _async_update_shade_data r.

(** The host loop as far as one entity goes: the entity's state, and
    the callbacks of the entity that are suspended at the refresh they
    await. *)
Definition loop_state : Type := state * list action.

(** A transition poll fires: the loop removes it and the callback runs
    up to its refresh.  The update-in-progress test is made there: when
    it holds, the refresh is skipped without suspending and the callback
    runs on to arm the resync; otherwise the callback is left awaiting
    the refresh. *)
Definition transition_fires (t : timer) (l : loop_state) : loop_state :=
  let s := fst (complete_schedule_update_begin (fire t (fst l))) in
  if _update_in_progress s
  then (fst (complete_schedule_update_end s), snd l)
  else (s, snd l ++ [cb_complete_schedule_update]).

(** A resync poll fires, likewise. *)
Definition resync_fires (t : timer) (l : loop_state) : loop_state :=
  let s := fst (force_resync_begin (fire t (fst l))) in
  if _update_in_progress s
  then (s, snd l)
  else (s, snd l ++ [cb_force_resync]).

(** One step of an entity's life on the host's cooperative loop: a
    method call, a delayed call firing, or a suspended callback resuming
    when the refresh it awaited is over. *)
Inductive step : loop_state -> loop_state -> Prop :=
| step_call (c : call) (s : state) (k : list action) :
    step (s, k) (fst (run c s), k)
| step_transition_fires (t : timer) (s : state) (k : list action) :
    In t (timers s) ->
    timer_action t = cb_complete_schedule_update ->
    step (s, k) (transition_fires t (s, k))
| step_transition_refreshed (refreshed : result position_data) (s : state)
    (k1 k2 : list action) :
    step (s, k1 ++ cb_complete_schedule_update :: k2)
         (fst (complete_schedule_update_resume refreshed s), k1 ++ k2)
| step_resync_fires (t : timer) (s : state) (k : list action) :
    In t (timers s) ->
    timer_action t = cb_force_resync ->
    step (s, k) (resync_fires t (s, k))
| step_resync_refreshed (refreshed : result position_data) (s : state)
    (k1 k2 : list action) :
    step (s, k1 ++ cb_force_resync :: k2)
         (fst (force_resync_resume refreshed s), k1 ++ k2).

Inductive reachable_loop : loop_state -> Prop :=
| reachable_loop_initial c open close p :
    reachable_loop (initial c open close p, [])
| reachable_loop_step l l' :
    reachable_loop l -> step l l' -> reachable_loop l'.

(** The states an entity can be in. *)
Definition reachable (s : state) : Prop :=
  exists k, reachable_loop (s, k).

(** The delay of the pending call a handle stands for. *)
Definition delay_of (h : nat) (s : state) : option Z :=
  match filter (has_handle h) (timers s) with
  | t :: _ => Some (timer_delay t)
  | [] => None
  end.

(** The delay of the pending transition-completion poll the entity
    holds. *)
Definition scheduled_delay (s : state) : option Z :=
  match _scheduled_transition_update (self s) with
  | Some h => delay_of h s
  | None => None
  end.

(** *** Setting up the entities *)

(** The vendor class the factory [PvShade] builds for a raw shade, as
    far as [create_powerview_shade_entity] tells them apart. *)
Inductive vendor_shade : Type :=
| ShadeTdbu
| Silhouette
| OtherShade (can_tilt : bool).

(** The raw data of a shade: [raw_positions] is its positions block
    ([ATTR_POSITION_DATA]) when it has one. *)
Record raw_shade : Type := {
  raw_id : Z;
  raw_name : string;
  raw_type : vendor_shade;
  raw_positions : option position_data;
  raw_room_id : option Z
}.

Record BaseShade : Type := {
  shade_kind : vendor_shade;
  raw_data : raw_shade
}.

Definition PvShade (raw : raw_shade) : BaseShade :=
  {| shade_kind := raw_type raw; raw_data := raw |}.

Definition shade_name (shade : BaseShade) : string := raw_name (raw_data shade).

(** An entity as constructed: its class and the constructor's
    arguments. *)
Record shade_entity : Type := {
  entity_cls : shade_class;
  entity_room_name : string;
  entity_shade : BaseShade;
  entity_name : string
}.

(** Create a PowerViewShade entity. *)
Definition create_powerview_shade_entity (room_name : string)
  (shade : BaseShade) (name_before_refresh : string) : list shade_entity :=
  let classes :=
    match shade_kind shade with
    | ShadeTdbu => [PowerViewShadeTDBUTop; PowerViewShadeTDBUBottom]
    | Silhouette => [PowerViewShadeSilhouette]
    | OtherShade true => [PowerViewShadeWithTilt]
    | OtherShade false => [PowerViewShade]
    end in
  map (fun c => {| entity_cls := c; entity_room_name := room_name;
                   entity_shade := shade; entity_name := name_before_refresh |})
      classes.

Inductive notice : Type :=
| skipped_missing_position_data (name : string).

(** What the setup builds up: the coordinator's positions by shade id,
    the log, and the entities collected so far. *)
Record setup : Type := {
  coordinator_positions : list (Z * PowerviewShadePositions);
  setup_log : list notice;
  entities : list shade_entity
}.

Definition empty_setup : setup :=
  {| coordinator_positions := []; setup_log := []; entities := [] |}.

Fixpoint lookup {A : Type} (k : Z) (l : list (Z * A)) : option A :=
  match l with
  | [] => None
  | (k', a) :: l' => if k =? k' then Some a else lookup k l'
  end.

(** Modelled from the spec: [shade_data.py] is not among the sources.
    The coordinator takes the positions of a shade from its raw data. *)
Definition update_shade_positions (id : Z) (d : position_data)
  (l : list (Z * PowerviewShadePositions)) : list (Z * PowerviewShadePositions) :=
  let old := match lookup id l with Some p => p | None => no_positions end in
  (id, update_from_position_data d old) :: l.

(** The shade after the refresh attempted under a one second timeout:
    a timeout is suppressed and leaves the shade as it was; any other
    exception is not caught. *)
Definition refreshed_shade (refresh : raw_shade -> result raw_shade)
  (shade : BaseShade) : result BaseShade :=
  match refresh (raw_data shade) with
  | Ok raw => Ok {| shade_kind := shade_kind shade; raw_data := raw |}
  | Raise TimeoutError => Ok shade
  | Raise e => Raise e
  end.

Definition room_name_of (room_data : list (Z * string)) (shade : BaseShade)
  : string :=
  match raw_room_id (raw_data shade) with
  | Some room_id =>
      match lookup room_id room_data with
      | Some n => n
      | None => EmptyString
      end
  | None => EmptyString
  end.

(** The loop of [async_setup_entry] over the raw shades. *)
Fixpoint add_shades (refresh : raw_shade -> result raw_shade)
  (room_data : list (Z * string)) (shade_data : list raw_shade)
  (acc : setup) : setup * result unit :=
  match shade_data with
  | [] => (acc, Ok tt)
  | raw :: rest =>
      let shade := PvShade raw in
      let name_before_refresh := shade_name shade in
      match refreshed_shade refresh shade with
      | Raise e => (acc, Raise e)
      | Ok shade =>
          match raw_positions (raw_data shade) with
          | None =>
              add_shades refresh room_data rest
                {| coordinator_positions := coordinator_positions acc;
                   setup_log :=
                     setup_log acc
                     ++ [skipped_missing_position_data name_before_refresh];
                   entities := entities acc |}
          | Some d =>
              add_shades refresh room_data rest
                {| coordinator_positions :=
                     update_shade_positions (raw_id (raw_data shade)) d
                       (coordinator_positions acc);
                   setup_log := setup_log acc;
                   entities :=
                     entities acc
                     ++ create_powerview_shade_entity
                          (room_name_of room_data shade) shade
                          name_before_refresh |}
          end
      end
  end.

(** Set up the hunter douglas shades: the state built, and the list
    handed to [async_add_entities] when the loop completes. *)
Definition async_setup_entry (refresh : raw_shade -> result raw_shade)
  (room_data : list (Z * string)) (shade_data : list raw_shade)
  : setup * result (list shade_entity) :=
  match add_shades refresh room_data shade_data empty_setup with
  | (acc, Ok _) => (acc, Ok (entities acc))
  | (acc, Raise e) => (acc, Raise e)
  end.

(** The shade as the loop sees it after the refresh, when the refresh
    raises nothing but a timeout. *)
Definition after_refresh (refresh : raw_shade -> result raw_shade)
  (raw : raw_shade) : BaseShade :=
  match refresh raw with
  | Ok raw' => {| shade_kind := raw_type raw; raw_data := raw' |}
  | Raise _ => PvShade raw
  end.

Definition lacks_position_data (refresh : raw_shade -> result raw_shade)
  (raw : raw_shade) : bool :=
  match raw_positions (raw_data (after_refresh refresh raw)) with
  | None => true
  | Some _ => false
  end.

(** The entities and the notices one raw shade contributes. *)
Definition entities_of (refresh : raw_shade -> result raw_shade)
  (room_data : list (Z * string)) (raw : raw_shade) : list shade_entity :=
  if lacks_position_data refresh raw then []
  else create_powerview_shade_entity
         (room_name_of room_data (after_refresh refresh raw))
         (after_refresh refresh raw) (raw_name raw).

Definition notices_of (refresh : raw_shade -> result raw_shade)
  (raw : raw_shade) : list notice :=
  if lacks_position_data refresh raw
  then [skipped_missing_position_data (raw_name raw)]
  else [].

(** *** Invariants of the delayed calls *)

(** The pending calls left when the cancel callable held in [h] (if
    any) is called. *)
Definition cancel_handle (h : option nat) (l : list timer) : list timer :=
  match h with
  | Some h => filter (fun t => negb (has_handle h t)) l
  | None => l
  end.

(** The state [_async_cancel_scheduled_transition_update] leaves. *)
Definition cancelled (s : state) : state :=
  with_self
    (set_forced_resync None (set_scheduled_transition_update None (self s)))
    (with_timers
       (cancel_handle (_forced_resync (self s))
          (cancel_handle (_scheduled_transition_update (self s)) (timers s)))
       (next_handle s) s).

(** The transition-completion poll armed in state [s] with delay [est]. *)
Definition new_poll (est : Z) (s : state) : timer :=
  {| timer_handle := next_handle s; timer_delay := est;
     timer_action := cb_complete_schedule_update |}.

(** The state after arming it and keeping its cancel callable. *)
Definition armed (est : Z) (s : state) : state :=
  with_self
    (set_scheduled_transition_update (Some (next_handle s)) (self s))
    (with_timers (timers s ++ [new_poll est s]) (S (next_handle s)) s).

(** Handles are given out in increasing order, no two pending calls
    share one, and a pending transition-completion poll is the one the
    entity holds the cancel callable of. *)
Definition wf (s : state) : Prop :=
  (forall t, In t (timers s) -> (timer_handle t < next_handle s)%nat)
  /\ NoDup (map timer_handle (timers s))
  /\ (forall t, In t (timers s) -> is_transition t = true ->
      _scheduled_transition_update (self s) = Some (timer_handle t)).

(** Two states with the same pending calls and the same handles. *)
Definition same_timers (s s' : state) : Prop :=
  timers s' = timers s
  /\ next_handle s' = next_handle s
  /\ _scheduled_transition_update (self s') = _scheduled_transition_update (self s)
  /\ _forced_resync (self s') = _forced_resync (self s).

Definition keeps_timers {A : Type} (m : M A) : Prop :=
  forall s, same_timers s (fst (m s)).

Definition preserves {A : Type} (m : M A) : Prop :=
  forall s, wf s -> wf (fst (m s)).

(** The two conversions in exact integer arithmetic: the nearest
    integer to [100 * p / 65535] (no tie occurs, [65535] being odd), and
    the integer part of [h * 65535 / 100]. *)
Definition nearest_percent (p : Z) : Z := (200 * p + 65535) / 131070.
Definition truncated_position (h : Z) : Z := h * 65535 / 100.

(** A vendor position converted to a percentage and back. *)
Definition vendor_round_trip (p : Z) : result Z :=
  h <- hd_position_to_hass p MAX_POSITION ;;
  hass_position_to_hd h MAX_POSITION.

(** A percentage converted to a vendor position and back. *)
Definition percent_round_trip (h : Z) : result Z :=
  p <- hass_position_to_hd h MAX_POSITION ;;
  hd_position_to_hass p MAX_POSITION.

(** *** The steps of a movement, in exact arithmetic *)

(** The nearest percentage on the vane scale of a silhouette shade (no
    tie occurs, [32767] being odd). *)
Definition nearest_percent_silhouette (v : Z) : Z := (200 * v + 32767) / 65534.

Definition vane_scale (c : shade_class) : Z :=
  match c with
  | PowerViewShadeSilhouette => 32767
  | _ => 65535
  end.

Definition vane_percent (s : state) : Z :=
  match cls (self s) with
  | PowerViewShadeSilhouette => nearest_percent_silhouette (vane (positions s))
  | _ => nearest_percent (vane (positions s))
  end.

(** The positions the entity's class reads are in the vendor range. *)
Definition in_vendor_range (s : state) : Prop :=
  0 <= primary (positions s) <= 65535
  /\ (is_tdbu (cls (self s)) = true -> 0 <= secondary (positions s) <= 65535)
  /\ (is_tilt (cls (self s)) = true
      -> 0 <= vane (positions s) <= vane_scale (cls (self s))).

(** What [transition_steps] is on positions of the vendor range: the
    percentage of the primary position, plus that of the other rail or
    of the vane for the classes that have one. *)
Definition steps_sum (s : state) : Z :=
  match cls (self s) with
  | PowerViewShade => nearest_percent (primary (positions s))
  | PowerViewShadeTDBUBottom | PowerViewShadeTDBUTop =>
      nearest_percent (primary (positions s))
      + nearest_percent (secondary (positions s))
  | PowerViewShadeWithTilt | PowerViewShadeSilhouette =>
      nearest_percent (primary (positions s)) + vane_percent s
  end.

(** What [current_cover_position] is there. *)
Definition position_percent (s : state) : Z :=
  match cls (self s) with
  | PowerViewShadeTDBUTop => nearest_percent (secondary (positions s))
  | _ => nearest_percent (primary (positions s))
  end.

(** What [_clamp_cover_limit] is there. *)
Definition clamped_target (t : Z) (s : state) : Z :=
  match cls (self s) with
  | PowerViewShadeTDBUBottom =>
      Z.min t (100 - nearest_percent (secondary (positions s)))
  | PowerViewShadeTDBUTop =>
      Z.min t (100 - nearest_percent (primary (positions s)))
  | _ => t
  end.






End Powerview.
(** * Properties *)

(** ** The runtime fragment *)

Lemma all_from_sound (f : Z -> bool) (n : nat) :
  forall i, all_from f n i = true ->
  forall k, i <= k < i + Z.of_nat n -> f k = true.
Proof.
  induction n as [|n IH]; intros i H k Hk.
  - simpl in Hk. lia.
  - simpl in H. destruct (f i) eqn:Hi; [|discriminate].
    destruct (Z.eq_dec k i) as [->|Hne]; [exact Hi|].
    apply (IH (i + 1) H). lia.
Qed.

(** Sanity checks of the float primitives against known values. *)
Example py_round_ties :
  map py_round [0.5; 1.5; 2.5; 3.5; -0.5; -1.5; -2.5; 0.49999999999999994; 2.5000000000000004]%float
  = map Ok [0; 2; 2; 4; 0; -2; -2; 0; 3].
Proof. vm_compute. reflexivity. Qed.

Example py_int_truncates :
  map py_int [0.9; 1.0; 1.9999999999999998; -0.4; -1.5; -20.4; 1e22; 4e-320]%float
  = map Ok [0; 1; 1; 0; -1; -20; 10000000000000000000000; 0].
Proof. vm_compute. reflexivity. Qed.

Example py_int_not_finite :
  map py_int [infinity; neg_infinity; nan]%float
  = [Raise OverflowError; Raise OverflowError; Raise ValueError].
Proof. vm_compute. reflexivity. Qed.

Example int_truediv_examples :
  [int_truediv 1 0; int_truediv 1 2; int_truediv (-3) 4;
   int_truediv (10 ^ 400) (10 ^ 399); int_truediv (10 ^ 400) 1;
   int_truediv (2 ^ 60 + 1) (2 ^ 60 + 1); int_truediv (3 * 2 ^ 70) (2 ^ 70)]
  = [Raise ZeroDivisionError; Ok 0.5%float; Ok (-0.75)%float;
     Ok 10%float; Raise OverflowError; Ok 1%float; Ok 3%float].
Proof. vm_compute. reflexivity. Qed.

Example int_le_float_examples :
  map (fun a => int_le_float a 491.5%float) [491; 492; -1]
  = [true; false; true]
  /\ map (fun a => int_le_float a (-1.5)%float) [-1; -2; -3]
  = [false; true; true].
Proof. vm_compute. split; reflexivity. Qed.

Lemma result_is_true (r : result Z) (z : Z) : result_is r z = true -> r = Ok z.
Proof.
  destruct r as [a|e]; simpl; [|discriminate].
  intros H. apply Z.eqb_eq in H. now subst.
Qed.

(** ** Hive alarm panel *)

Module HiveFacts.
Import Hive.
Local Open Scope string_scope.

(** A report that is triggered while the device is offline, and an
    entity that showed the disarmed state before it. *)
Definition offline_triggered : device :=
  {| online := VBool false; status_state := VBool true; status_mode := "away" |}.

Definition disarmed_entity : entity :=
  {| entity_device :=
       {| online := VBool true; status_state := VBool false; status_mode := "home" |};
     _attr_available := VBool true;
     _attr_state := Some STATE_ALARM_DISARMED |}.

(** C3, as stated, fails: a triggered report of an offline device leaves
    the state as it was (here disarmed), since the state is written
    only behind the availability test. *)
Lemma triggered_report_offline_keeps_state :
  truthy (status_state offline_triggered) = true
  /\ exists self',
       async_update offline_triggered disarmed_entity = Ok self'
       /\ _attr_state self' = Some STATE_ALARM_DISARMED
       /\ _attr_state self' <> Some STATE_ALARM_TRIGGERED.
Proof.
  split; [reflexivity|].
  eexists. split; [reflexivity|].
  simpl. split; [reflexivity|discriminate].
Qed.

(** C3, amended: for every alarm update in which the vendor reports the
    device online and a truthy triggered flag, the update succeeds and
    the resulting state is the triggered state, whatever mode string is
    reported with it (one of the three known ones or any other). *)
Theorem triggered_report_online_yields_triggered
  (self : entity) (fetched : device) :
  truthy (online fetched) = true ->
  truthy (status_state fetched) = true ->
  exists self',
    async_update fetched self = Ok self'
    /\ _attr_state self' = Some STATE_ALARM_TRIGGERED
    /\ truthy (_attr_available self') = true.
Proof.
  intros Honline Htriggered.
  unfold async_update. rewrite Honline, Htriggered.
  eexists. split; [reflexivity|]. simpl. auto.
Qed.

Lemma triggered_report_online_witness :
  let fetched :=
    {| online := VBool true; status_state := VInt 1; status_mode := "asleep" |} in
  truthy (online fetched) = true
  /\ truthy (status_state fetched) = true
  /\ exists self',
       async_update fetched disarmed_entity = Ok self'
       /\ _attr_state self' = Some STATE_ALARM_TRIGGERED
       /\ truthy (_attr_available self') = true.
Proof.
  split; [reflexivity|]. split; [reflexivity|].
  apply (triggered_report_online_yields_triggered disarmed_entity);
    reflexivity.
Defined.

(** Without the triggered flag, an online report maps the three mode
    strings onto disarmed, armed-night and armed-away. *)
Lemma untriggered_report_maps_mode (self : entity) (fetched : device) (st : alarm_state) :
  truthy (online fetched) = true ->
  truthy (status_state fetched) = false ->
  HIVETOHA (status_mode fetched) = Some st ->
  exists self', async_update fetched self = Ok self' /\ _attr_state self' = Some st.
Proof.
  intros Honline Hquiet Hmode.
  unfold async_update. rewrite Honline, Hquiet, Hmode.
  eexists. split; reflexivity.
Qed.

(** *** Further properties of the update *)


(** X1: an update that finds the device offline never raises, whatever
    the triggered flag and the mode string are (a mode outside the
    table included); it stores the fetched device, marks the entity
    unavailable and keeps the alarm state it had. *)
Theorem offline_update_keeps_state (self : entity) (fetched : device) :
  truthy (online fetched) = false ->
  exists self',
    async_update fetched self = Ok self'
    /\ _attr_state self' = _attr_state self
    /\ truthy (_attr_available self') = false
    /\ entity_device self' = fetched.
Proof.
  intros Hoff. unfold async_update. rewrite Hoff.
  eexists. split; [reflexivity|]. simpl. auto.
Qed.

Lemma offline_update_witness :
  let fetched :=
    {| online := VNone; status_state := VBool false; status_mode := "holiday" |} in
  truthy (online fetched) = false
  /\ exists self',
       async_update fetched disarmed_entity = Ok self'
       /\ _attr_state self' = _attr_state disarmed_entity
       /\ truthy (_attr_available self') = false
       /\ entity_device self' = fetched.
Proof.
  split; [reflexivity|].
  apply (offline_update_keeps_state disarmed_entity). reflexivity.
Defined.



(** X3: for each of the three arming methods, when the vendor then
    reports the device online, not triggered and in the mode the method
    sent, the update shows the state the method is named for; and no
    two methods lead to the same state. *)
Theorem reported_mode_shows_requested_state
  (c : arming) (self : entity) (fetched : device) :
  truthy (online fetched) = true ->
  truthy (status_state fetched) = false ->
  status_mode fetched = mode_sent c ->
  (exists self',
     async_update fetched self = Ok self'
     /\ _attr_state self' = Some (state_requested c))
  /\ (forall c', state_requested c' = state_requested c -> c' = c).
Proof.
  intros Honline Hquiet Hmode. split.
  - unfold async_update. rewrite Honline, Hquiet, Hmode.
    destruct c; eexists; split; reflexivity.
  - intros c' Hsame. destruct c, c'; (reflexivity || discriminate).
Qed.

Lemma reported_mode_witness :
  let fetched :=
    {| online := VBool true; status_state := VBool false;
       status_mode := mode_sent alarm_arm_night |} in
  exists self',
    async_update fetched disarmed_entity = Ok self'
    /\ _attr_state self' = Some STATE_ALARM_ARMED_NIGHT.
Proof.
  apply (reported_mode_shows_requested_state alarm_arm_night disarmed_entity);
    reflexivity.
Defined.

End HiveFacts.

(** ** Rachio setup *)

Module RachioFacts.
Import Rachio.
Local Open Scope string_scope.

Definition empty_hass : hass :=
  {| has_domain := false; data := []; webhooks := []; platforms := [];
     log := [] |}.

Definition sample_entry : entry :=
  {| entry_id := "entry-1"; config_api_key := Some "key";
     config_manual_run_mins := None; options_manual_run_mins := None |}.

Definition outcome (r : hass * entry * result bool) : result bool := snd r.
Definition host_after (r : hass * entry * result bool) : hass := fst (fst r).

Lemma import_keeps_api_key (e : entry) :
  config_api_key (import_manual_run_mins e) = config_api_key e.
Proof.
  unfold import_manual_run_mins.
  destruct (negb _ && _); reflexivity.
Qed.

(** C6: when the webhook registration raises the cloud-not-connected
    error, the setup raises [ConfigEntryNotReady] (the retryable
    signal); it returns nothing, and the host state is left as it was. *)
Theorem cloud_not_connected_is_not_ready
  (a : answers) (h : hass) (e : entry) (key : string) :
  config_api_key e = Some key ->
  registered_webhook a = Raise CloudNotConnected ->
  outcome (async_setup_entry a h e) = Raise ConfigEntryNotReady
  /\ host_after (async_setup_entry a h e) = h.
Proof.
  intros Hkey Hcloud.
  unfold async_setup_entry.
  rewrite import_keeps_api_key, Hkey, Hcloud.
  split; reflexivity.
Qed.

Lemma cloud_not_connected_witness :
  let a := {| token_hex := "00ff";
              registered_webhook := Raise CloudNotConnected;
              person_async_setup := Ok ("user", ["controller"]) |} in
  outcome (async_setup_entry a empty_hass sample_entry) = Raise ConfigEntryNotReady
  /\ host_after (async_setup_entry a empty_hass sample_entry) = empty_hass.
Proof.
  apply (cloud_not_connected_is_not_ready _ empty_hass sample_entry "key");
    reflexivity.
Defined.

(** C7: once the webhook is registered, the setup returns [False]
    (terminal failure, nothing raised, no platform set up) when the
    authentication fails or when the account has no controller, and
    raises [ConfigEntryNotReady] (retry later) when the connection to
    the vendor cloud times out. *)
Theorem setup_failure_kinds
  (a : answers) (h : hass) (e : entry) (key : string) (wh : string * string) :
  config_api_key e = Some key ->
  registered_webhook a = Ok wh ->
  let r := async_setup_entry a h e in
  (person_async_setup a = Raise ConfigEntryAuthFailed ->
   outcome r = Ok false /\ platforms (host_after r) = platforms h)
  /\ (forall name, person_async_setup a = Ok (name, []) ->
      outcome r = Ok false /\ platforms (host_after r) = platforms h)
  /\ (person_async_setup a = Raise ConnectTimeout ->
      outcome r = Raise ConfigEntryNotReady).
Proof.
  intros Hkey Hweb r. subst r.
  unfold async_setup_entry.
  rewrite import_keeps_api_key, Hkey, Hweb.
  destruct wh as [webhook_id url].
  split; [|split].
  - intros Hauth. rewrite Hauth. split; reflexivity.
  - intros name Hnone. rewrite Hnone. split; reflexivity.
  - intros Htimeout. rewrite Htimeout. reflexivity.
Qed.

Definition answers_with (p : result (string * list string)) : answers :=
  {| token_hex := "00ff";
     registered_webhook := Ok ("hook", "https://hooks.example/hook");
     person_async_setup := p |}.

Lemma setup_failure_kinds_witness :
  outcome (async_setup_entry (answers_with (Raise ConfigEntryAuthFailed))
             empty_hass sample_entry) = Ok false
  /\ outcome (async_setup_entry (answers_with (Ok ("user", [])))
                empty_hass sample_entry) = Ok false
  /\ outcome (async_setup_entry (answers_with (Raise ConnectTimeout))
                empty_hass sample_entry) = Raise ConfigEntryNotReady.
Proof.
  split; [|split].
  - apply (setup_failure_kinds (answers_with (Raise ConfigEntryAuthFailed))
             empty_hass sample_entry "key" _ eq_refl eq_refl).
    reflexivity.
  - apply (proj1 (proj2 (setup_failure_kinds (answers_with (Ok ("user", [])))
             empty_hass sample_entry "key" _ eq_refl eq_refl)) "user").
    reflexivity.
  - apply (setup_failure_kinds (answers_with (Raise ConnectTimeout))
             empty_hass sample_entry "key" _ eq_refl eq_refl).
    reflexivity.
Defined.

(** With every collaborator answering and at least one controller, the
    setup succeeds and registers the entry. *)
Lemma setup_succeeds :
  let r := async_setup_entry (answers_with (Ok ("user", ["controller"])))
             empty_hass sample_entry in
  outcome r = Ok true /\ platforms (host_after r) = ["entry-1"].
Proof. split; reflexivity. Qed.

(** *** Further properties of setup and unload *)

Definition entry_after (r : hass * entry * result bool) : entry := snd (fst r).

(** X4: the setup returns [True] exactly when the entry has an API key,
    the webhook registration answers, the account setup answers and the
    account has at least one controller; every other combination of
    answers returns [False] or raises. *)
Theorem setup_true_iff (a : answers) (h : hass) (e : entry) :
  outcome (async_setup_entry a h e) = Ok true <->
  (exists key, config_api_key e = Some key)
  /\ (exists wh, registered_webhook a = Ok wh)
  /\ (exists name c cs, person_async_setup a = Ok (name, c :: cs)).
Proof.
  unfold async_setup_entry. rewrite import_keeps_api_key.
  destruct (config_api_key e) as [key|].
  2:{ split; [discriminate|intros ((key & F) & _); discriminate]. }
  destruct (registered_webhook a) as [[webhook_id url]|exc].
  2:{ split; [destruct exc; discriminate|intros (_ & (wh & F) & _); discriminate]. }
  destruct (person_async_setup a) as [[name [|c cs]]|exc].
  - split; [discriminate|intros (_ & _ & (n & c & cs & F)); discriminate].
  - split; [intros _|reflexivity].
    split; [eauto|]. split; eauto.
  - split; [destruct exc; discriminate|intros (_ & _ & (n & c & cs & F)); discriminate].
Qed.





(** X7: the import of the manual run minutes into the options is made
    whatever the setup then returns or raises; it changes nothing but
    the option, never replaces an option that is set and not zero,
    takes the configured value when the option is missing or zero and
    the configured value is not, and importing twice is importing
    once. *)
Theorem manual_run_mins_import (a : answers) (h : hass) (e : entry) :
  let e' := entry_after (async_setup_entry a h e) in
  e' = import_manual_run_mins e
  /\ entry_id e' = entry_id e
  /\ config_api_key e' = config_api_key e
  /\ config_manual_run_mins e' = config_manual_run_mins e
  /\ (truthy_mins (options_manual_run_mins e) = true ->
      options_manual_run_mins e' = options_manual_run_mins e)
  /\ (truthy_mins (options_manual_run_mins e) = false ->
      truthy_mins (config_manual_run_mins e) = true ->
      options_manual_run_mins e' = config_manual_run_mins e)
  /\ (truthy_mins (config_manual_run_mins e) = false -> e' = e)
  /\ import_manual_run_mins e' = e'.
Proof.
  intros e'.
  assert (He' : e' = import_manual_run_mins e).
  { subst e'. unfold async_setup_entry, entry_after.
    destruct (config_api_key (import_manual_run_mins e)); [|reflexivity].
    destruct (registered_webhook a) as [[webhook_id url]|exc];
      [|destruct exc; reflexivity].
    destruct (person_async_setup a) as [[name [|c cs]]|exc];
      [reflexivity|reflexivity|destruct exc; reflexivity]. }
  rewrite He'. clear He' e'. unfold import_manual_run_mins.
  destruct (truthy_mins (options_manual_run_mins e)) eqn:Hopt;
  destruct (truthy_mins (config_manual_run_mins e)) eqn:Hcfg; simpl;
    rewrite ?Hopt, ?Hcfg; simpl; repeat split; auto; discriminate.
Qed.

(** The store with one more entry gives the entry back. *)
Lemma pop_after_store (k : string) (p : person) (d : list (string * person)) :
  has_key k d = false -> pop k ((k, p) :: d) = Ok d.
Proof.
  intros Hfresh. unfold pop, has_key. simpl. rewrite String.eqb_refl. simpl.
  f_equal. unfold has_key in Hfresh.
  induction d as [|[k' p'] d IH]; simpl in *; [reflexivity|].
  apply orb_false_iff in Hfresh as [Hk Hd].
  rewrite Hk. simpl. f_equal. apply IH, Hd.
Qed.

(** X8: unloading undoes the store of a setup, not the domain key.
    After a setup that returned [True] for an entry whose id was not
    stored under the domain, an unload whose platforms unload returns
    [True] and leaves under the domain the entries it had before the
    setup; the domain key itself stays, so a host whose data had no
    domain key ends with an empty store under it.  An unload whose
    platforms do not unload returns [False] and changes nothing, and
    unloading an entry that was never set up raises [KeyError]. *)
Theorem unload_undoes_setup (a : answers) (h : hass) (e : entry) :
  has_key (entry_id e) (domain_entries h) = false ->
  outcome (async_setup_entry a h e) = Ok true ->
  let h1 := host_after (async_setup_entry a h e) in
  let e1 := entry_after (async_setup_entry a h e) in
  let h2 := fst (async_unload_entry true h1 e1) in
  (snd (async_unload_entry true h1 e1) = Ok true
   /\ domain_entries h2 = domain_entries h
   /\ has_domain h2 = true
   /\ (has_domain h = false -> data h2 = [] /\ has_domain h2 <> has_domain h))
  /\ async_unload_entry false h1 e1 = (h1, Ok false)
  /\ snd (async_unload_entry true h e) = Raise KeyError.
Proof.
  intros Hfresh Htrue h1 e1 h2.
  assert (Hid : entry_id (import_manual_run_mins e) = entry_id e).
  { unfold import_manual_run_mins. destruct (negb _ && _); reflexivity. }
  assert (Hstored : exists p, data h1 = (entry_id e, p) :: domain_entries h
                              /\ has_domain h1 = true
                              /\ entry_id e1 = entry_id e).
  { subst h1 e1. revert Htrue.
    unfold async_setup_entry, host_after, entry_after, outcome.
    destruct (config_api_key (import_manual_run_mins e)); [|discriminate].
    destruct (registered_webhook a) as [[webhook_id url]|exc];
      [|destruct exc; discriminate].
    destruct (person_async_setup a) as [[name [|c cs]]|exc];
      [discriminate| |destruct exc; discriminate].
    intros _. simpl. rewrite Hid. eauto. }
  destruct Hstored as (p & Hdata & Hdomain & Hid1).
  assert (Hunload : async_unload_entry true h1 e1
                    = ({| has_domain := true; data := domain_entries h;
                          webhooks := webhooks h1; platforms := platforms h1;
                          log := log h1 |}, Ok true)).
  { unfold async_unload_entry, domain_entries at 1.
    rewrite Hdomain, Hdata, Hid1, pop_after_store by exact Hfresh.
    reflexivity. }
  split; [|split].
  - subst h2. rewrite Hunload. simpl.
    split; [reflexivity|]. split; [reflexivity|]. split; [reflexivity|].
    intros Hnone. unfold domain_entries. rewrite Hnone. split; [reflexivity|discriminate].
  - reflexivity.
  - unfold async_unload_entry, pop. rewrite Hfresh. reflexivity.
Qed.

Lemma unload_undoes_setup_witness :
  let a := answers_with (Ok ("user", ["controller"])) in
  let h1 := host_after (async_setup_entry a empty_hass sample_entry) in
  let e1 := entry_after (async_setup_entry a empty_hass sample_entry) in
  let h2 := fst (async_unload_entry true h1 e1) in
  (snd (async_unload_entry true h1 e1) = Ok true
   /\ domain_entries h2 = domain_entries empty_hass
   /\ has_domain h2 = true
   /\ (has_domain empty_hass = false ->
       data h2 = [] /\ has_domain h2 <> has_domain empty_hass))
  /\ async_unload_entry false h1 e1 = (h1, Ok false)
  /\ snd (async_unload_entry true empty_hass sample_entry) = Raise KeyError.
Proof.
  apply (unload_undoes_setup (answers_with (Ok ("user", ["controller"])))
           empty_hass sample_entry); reflexivity.
Defined.

End RachioFacts.

(** ** PowerView shades *)

Module PowerviewFacts.
Import Powerview.

(** On the whole vendor range the float computation of
    [hd_position_to_hass] agrees with the exact nearest percentage. *)
Lemma hd_position_to_hass_exact (p : Z) :
  0 <= p <= 65535 ->
  hd_position_to_hass p MAX_POSITION = Ok (nearest_percent p).
Proof.
  intros Hp. apply result_is_true.
  apply (all_from_sound
           (fun p => result_is (hd_position_to_hass p MAX_POSITION) (nearest_percent p))
           (Z.to_nat 65536) 0).
  - vm_compute. reflexivity.
  - lia.
Qed.

(** On every percentage the float computation of [hass_position_to_hd]
    agrees with the exact truncation. *)
Lemma hass_position_to_hd_exact (h : Z) :
  0 <= h <= 100 ->
  hass_position_to_hd h MAX_POSITION = Ok (truncated_position h).
Proof.
  intros Hh. apply result_is_true.
  apply (all_from_sound
           (fun h => result_is (hass_position_to_hd h MAX_POSITION) (truncated_position h))
           (Z.to_nat 101) 0).
  - vm_compute. reflexivity.
  - lia.
Qed.

(** The estimated duration, for every number of steps two rails can add
    up to, is the exact [1 + floor(40 * steps / 100)]. *)
Lemma est_time_exact (steps : Z) :
  0 <= steps <= 200 ->
  est_time_to_complete_transition steps = Ok (1 + 40 * steps / 100).
Proof.
  intros Hs. apply result_is_true.
  apply (all_from_sound
           (fun s => result_is (est_time_to_complete_transition s) (1 + 40 * s / 100))
           (Z.to_nat 201) 0).
  - vm_compute. reflexivity.
  - lia.
Qed.

(** For a negative number of steps [int] truncates toward zero: the
    duration is [1 + (40 * steps) quot 100], above the floor whenever
    the quotient is not an integer. *)
Lemma est_time_truncates (steps : Z) :
  -200 <= steps <= 200 ->
  est_time_to_complete_transition steps = Ok (1 + Z.quot (40 * steps) 100).
Proof.
  intros Hs. apply result_is_true.
  apply (all_from_sound
           (fun s => result_is (est_time_to_complete_transition s) (1 + Z.quot (40 * s) 100))
           (Z.to_nat 401) (-200)).
  - vm_compute. reflexivity.
  - lia.
Qed.

(** On the vane scale of a silhouette shade too the float computation
    is the exact nearest percentage. *)
Lemma hd_position_to_hass_silhouette (v : Z) :
  0 <= v <= 32767 ->
  hd_position_to_hass v 32767 = Ok (nearest_percent_silhouette v).
Proof.
  intros Hv. apply result_is_true.
  apply (all_from_sound
           (fun v => result_is (hd_position_to_hass v 32767)
                       (nearest_percent_silhouette v))
           (Z.to_nat 32768) 0).
  - vm_compute. reflexivity.
  - lia.
Qed.

Lemma nearest_percent_silhouette_range (v : Z) :
  0 <= v <= 32767 -> 0 <= nearest_percent_silhouette v <= 100.
Proof.
  intros Hv. unfold nearest_percent_silhouette. split.
  - apply Z.div_pos; lia.
  - enough (H : (200 * v + 32767) / 65534 < 101) by lia.
    apply Z.div_lt_upper_bound; lia.
Qed.

Lemma nearest_percent_range (p : Z) :
  0 <= p <= 65535 -> 0 <= nearest_percent p <= 100.
Proof.
  intros Hp. unfold nearest_percent. split.
  - apply Z.div_pos; lia.
  - enough (H : (200 * p + 65535) / 131070 < 101) by lia.
    apply Z.div_lt_upper_bound; lia.
Qed.


Lemma truncated_position_range (h : Z) :
  0 <= h <= 100 -> 0 <= truncated_position h <= 65535.
Proof.
  intros Hh. unfold truncated_position. split.
  - apply Z.div_pos; lia.
  - apply Z.div_le_upper_bound; lia.
Qed.

Lemma nearest_percent_of_truncated (h : Z) :
  0 <= h <= 100 -> nearest_percent (truncated_position h) = h.
Proof.
  intros Hh. unfold nearest_percent, truncated_position.
  symmetry. apply Z.div_unique with (r := 200 * (h * 65535 / 100) + 65535 - 131070 * h).
  - left. pose proof (Z.div_mod (h * 65535) 100 ltac:(lia)) as E.
    pose proof (Z.mod_pos_bound (h * 65535) 100 ltac:(lia)) as B.
    lia.
  - lia.
Qed.

(** The round trip of a vendor position never raises, and lands on the
    truncated position of the nearest percentage. *)
Lemma vendor_round_trip_exact (p : Z) :
  0 <= p <= 65535 ->
  vendor_round_trip p = Ok (truncated_position (nearest_percent p)).
Proof.
  intros Hp. unfold vendor_round_trip.
  rewrite (hd_position_to_hass_exact p Hp). simpl.
  apply hass_position_to_hd_exact, nearest_percent_range, Hp.
Qed.

(** C1, as stated, fails: vendor position 300 is 0 percent, and 0
    percent is vendor position 0, which is 300 away from it. *)
Lemma round_trip_of_300_is_0 :
  0 <= 300 <= 65535
  /\ hd_position_to_hass 300 MAX_POSITION = Ok 0
  /\ hass_position_to_hd 0 MAX_POSITION = Ok 0
  /\ vendor_round_trip 300 = Ok 0
  /\ ~ (Z.abs (0 - 300) <= 1).
Proof.
  split; [lia|].
  split; [vm_compute; reflexivity|].
  split; [vm_compute; reflexivity|].
  split; [vm_compute; reflexivity|].
  lia.
Qed.

(** C1, amended: for every vendor position p in [0, 65535], converting
    p to a host percentage with [hd_position_to_hass] (rounding) and
    the result back with [hass_position_to_hd] (truncation), both with
    max_val = 65535, yields a value within 328 of p (half a percent of
    the range, rounded up). *)
Theorem vendor_round_trip_within_328 (p : Z) :
  0 <= p <= 65535 ->
  exists p', vendor_round_trip p = Ok p' /\ Z.abs (p' - p) <= 328.
Proof.
  intros Hp. exists (truncated_position (nearest_percent p)).
  split; [apply vendor_round_trip_exact, Hp|].
  unfold truncated_position, nearest_percent.
  pose proof (Z.div_mod (200 * p + 65535) 131070 ltac:(lia)) as E1.
  pose proof (Z.mod_pos_bound (200 * p + 65535) 131070 ltac:(lia)) as B1.
  set (h := (200 * p + 65535) / 131070) in *.
  pose proof (Z.div_mod (h * 65535) 100 ltac:(lia)) as E2.
  pose proof (Z.mod_pos_bound (h * 65535) 100 ltac:(lia)) as B2.
  set (q := h * 65535 / 100) in *.
  lia.
Qed.

Lemma vendor_round_trip_witness :
  0 <= 983 <= 65535
  /\ exists p', vendor_round_trip 983 = Ok p' /\ Z.abs (p' - 983) <= 328.
Proof.
  split; [lia|].
  apply (vendor_round_trip_within_328 983). lia.
Defined.

(** The bound is reached: position 983 comes back as 655. *)
Lemma vendor_round_trip_bound_reached :
  vendor_round_trip 983 = Ok 655 /\ Z.abs (655 - 983) = 328.
Proof. split; [vm_compute; reflexivity|reflexivity]. Qed.

(** C10: for every host percentage h in [0, 100], converting h to a
    vendor position with [hass_position_to_hd] and back with
    [hd_position_to_hass] (both with max_val = 65535) returns exactly
    h. *)
Theorem percent_round_trip_identity (h : Z) :
  0 <= h <= 100 ->
  percent_round_trip h = Ok h.
Proof.
  intros Hh. unfold percent_round_trip.
  rewrite (hass_position_to_hd_exact h Hh). simpl.
  rewrite (hd_position_to_hass_exact _ (truncated_position_range h Hh)).
  f_equal. apply nearest_percent_of_truncated, Hh.
Qed.

Lemma percent_round_trip_witness :
  0 <= 37 <= 100 /\ percent_round_trip 37 = Ok 37.
Proof.
  split; [lia|].
  apply (percent_round_trip_identity 37). lia.
Defined.

(** The closed threshold is the float nearest to 491.5125, and an
    integer position is at most the threshold exactly when it is at
    most 491. *)
Lemma CLOSED_POSITION_value : CLOSED_POSITION = 491.5125%float.
Proof. vm_compute. reflexivity. Qed.

Lemma le_CLOSED_POSITION (a : Z) :
  int_le_float a CLOSED_POSITION = (a <=? 491).
Proof.
  unfold int_le_float.
  replace (PrimFloat.is_nan CLOSED_POSITION) with false by (vm_compute; reflexivity).
  replace (PrimFloat.is_infinity CLOSED_POSITION) with false by (vm_compute; reflexivity).
  replace (float_floor CLOSED_POSITION) with 491 by (vm_compute; reflexivity).
  reflexivity.
Qed.

(** C9: with max 65535, vendor position 65535 is host position 100 and
    vendor position 491 is host position 1; the closed threshold is
    491.5125 (as a float), so a shade whose closed test reads the
    primary position is closed at 491 and not closed at 492. *)
Theorem closed_threshold_examples (s : state) :
  cls (self s) <> PowerViewShadeTDBUTop ->
  hd_position_to_hass 65535 65535 = Ok 100
  /\ hd_position_to_hass 491 65535 = Ok 1
  /\ CLOSED_POSITION = 491.5125%float
  /\ (primary (positions s) = 491 -> is_closed s = true)
  /\ (primary (positions s) = 492 -> is_closed s = false)
  /\ is_closed s = (primary (positions s) <=? 491).
Proof.
  intros Hcls.
  assert (Hclosed : is_closed s = (primary (positions s) <=? 491)).
  { unfold is_closed. destruct (cls (self s)); try apply le_CLOSED_POSITION.
    contradiction. }
  split; [vm_compute; reflexivity|].
  split; [vm_compute; reflexivity|].
  split; [apply CLOSED_POSITION_value|].
  rewrite Hclosed.
  split; [intros ->; reflexivity|].
  split; [intros ->; reflexivity|reflexivity].
Qed.

Definition plain_shade_at (p : Z) : state :=
  initial PowerViewShade
    {| position1 := Some (POS_KIND_PRIMARY, MAX_POSITION); position2 := None |}
    {| position1 := Some (POS_KIND_PRIMARY, MIN_POSITION); position2 := None |}
    {| primary := p; secondary := 0; vane := 0 |}.

Lemma closed_threshold_witness :
  is_closed (plain_shade_at 491) = true
  /\ is_closed (plain_shade_at 492) = false.
Proof.
  split.
  - destruct (closed_threshold_examples (plain_shade_at 491)) as (_ & _ & _ & H & _);
      [discriminate|apply H; reflexivity].
  - destruct (closed_threshold_examples (plain_shade_at 492)) as (_ & _ & _ & _ & H & _);
      [discriminate|apply H; reflexivity].
Defined.


(** *** Delayed calls *)

Lemma same_timers_refl (s : state) : same_timers s s.
Proof. repeat split. Qed.

Lemma same_timers_trans (s1 s2 s3 : state) :
  same_timers s1 s2 -> same_timers s2 s3 -> same_timers s1 s3.
Proof.
  intros (A1 & A2 & A3 & A4) (B1 & B2 & B3 & B4).
  repeat split; congruence.
Qed.

Lemma same_timers_wf (s s' : state) : same_timers s s' -> wf s -> wf s'.
Proof.
  intros (Ht & Hn & Hs & _) (W1 & W2 & W3).
  unfold wf. rewrite Ht, Hn, Hs. auto.
Qed.


Lemma same_timers_scheduled_delay (s s' : state) :
  same_timers s s' -> scheduled_delay s' = scheduled_delay s.
Proof.
  intros (Ht & _ & Hs & _). unfold scheduled_delay, delay_of.
  now rewrite Hs, Ht.
Qed.

Lemma keeps_ret {A : Type} (a : A) : keeps_timers (ret a).
Proof. intros s. apply same_timers_refl. Qed.

Lemma keeps_eval {A : Type} (f : state -> result A) : keeps_timers (eval f).
Proof. intros s. apply same_timers_refl. Qed.

Lemma keeps_modify (f : state -> state) :
  (forall s, same_timers s (f s)) -> keeps_timers (modify f).
Proof. intros H s. apply H. Qed.

Lemma bind_same_timers {A B : Type} (m : M A) (k : A -> M B) (s : state) :
  (forall a, keeps_timers (k a)) ->
  same_timers (fst (m s)) (fst (mbind m k s)).
Proof.
  intros Hk. unfold mbind.
  destruct (m s) as [s' [a|e]]; simpl.
  - apply Hk.
  - apply same_timers_refl.
Qed.

Lemma keeps_bind {A B : Type} (m : M A) (k : A -> M B) :
  keeps_timers m -> (forall a, keeps_timers (k a)) -> keeps_timers (mbind m k).
Proof.
  intros Hm Hk s.
  eapply same_timers_trans; [apply Hm|apply bind_same_timers, Hk].
Qed.

Lemma keeps_reading {A B : Type} (f : state -> A) (m : A -> M B) :
  (forall a, keeps_timers (m a)) -> keeps_timers (fun s => m (f s) s).
Proof. intros H s. apply (H (f s)). Qed.

Lemma keeps_set_flags (o c : bool) : keeps_timers (set_flags o c).
Proof. intros s. repeat split. Qed.

Lemma keeps_execute_move (move : PowerviewShadeMove)
  (response : result (option position_data)) :
  keeps_timers (_async_execute_move move response).
Proof.
  unfold _async_execute_move.
  apply keeps_bind; [apply keeps_modify; intros s; repeat split|].
  intros _. apply keeps_bind; [apply keeps_eval|].
  intros r. apply keeps_bind; [apply keeps_modify; intros s; repeat split|].
  intros _. apply keeps_modify. intros s. destruct r; repeat split.
Qed.

Lemma keeps_update_shade_data (d : position_data) :
  keeps_timers (_async_update_shade_data d).
Proof.
  unfold _async_update_shade_data.
  apply keeps_bind; [apply keeps_modify; intros s; repeat split|].
  intros _. apply keeps_set_flags.
Qed.

Lemma keeps_async_update (refreshed : result position_data) :
  keeps_timers (async_update refreshed).
Proof.
  intros s. unfold async_update.
  destruct (_update_in_progress s); [apply same_timers_refl|].
  apply keeps_bind; [apply keeps_eval|].
  intros r. apply keeps_update_shade_data.
Qed.


(** What the cancel leaves, in closed form. *)
Lemma cancel_result (s : state) :
  _async_cancel_scheduled_transition_update s = (cancelled s, Ok tt).
Proof.
  destruct s as [[c tr rs o cl] op clo cur tm nh snt].
  destruct tr, rs; reflexivity.
Qed.

(** The schedule is the cancel followed, when the duration can be
    computed, by the arming of one new poll. *)
Lemma schedule_result (steps : Z) (s : state) :
  _async_schedule_update_for_transition steps s =
  match est_time_to_complete_transition steps with
  | Ok est => (armed est (cancelled s), Ok tt)
  | Raise e => (cancelled s, Raise e)
  end.
Proof.
  unfold _async_schedule_update_for_transition, mbind at 1.
  rewrite cancel_result.
  unfold mbind, eval.
  destruct (est_time_to_complete_transition steps); reflexivity.
Qed.

Lemma in_cancel_handle (h : option nat) (l : list timer) (t : timer) :
  In t (cancel_handle h l) <-> In t l /\ h <> Some (timer_handle t).
Proof.
  destruct h as [h|]; simpl.
  - rewrite filter_In. unfold has_handle.
    destruct (Nat.eqb_spec (timer_handle t) h) as [E|E]; simpl.
    + split; [intros [_ F]; discriminate|intros [_ F]; congruence].
    + split; [intros [I _]; split; [exact I|congruence]|intros [I _]; auto].
  - split; [intros I; split; [exact I|discriminate]|tauto].
Qed.

Lemma NoDup_handles_filter (keep : timer -> bool) (pending : list timer) :
  NoDup (map timer_handle pending) ->
  NoDup (map timer_handle (filter keep pending)).
Proof.
  induction pending as [|t pending IH]; simpl; intros Hnd; [constructor|].
  inversion Hnd as [|h hs Hfresh Hrest]; subst.
  destruct (keep t); simpl; [|auto].
  constructor; [|auto].
  intros Hin. apply Hfresh.
  apply in_map_iff in Hin as (u & Hu & Hin).
  apply filter_In in Hin as [Hin _].
  apply in_map_iff. eauto.
Qed.

Lemma NoDup_cancel_handle (h : option nat) (l : list timer) :
  NoDup (map timer_handle l) -> NoDup (map timer_handle (cancel_handle h l)).
Proof. destruct h; simpl; [apply NoDup_handles_filter|auto]. Qed.

Lemma in_timers_cancelled (s : state) (t : timer) :
  In t (timers (cancelled s)) <->
  In t (timers s)
  /\ _scheduled_transition_update (self s) <> Some (timer_handle t)
  /\ _forced_resync (self s) <> Some (timer_handle t).
Proof.
  unfold cancelled; simpl.
  rewrite 2 in_cancel_handle. tauto.
Qed.

Lemma filter_none {A : Type} (p : A -> bool) (l : list A) :
  (forall a, In a l -> p a = false) -> filter p l = [].
Proof.
  induction l as [|a l IH]; simpl; intros H; [reflexivity|].
  rewrite (H a (or_introl eq_refl)). apply IH. intros b Hb. apply H. now right.
Qed.

Lemma not_transition (t : timer) : is_transition t <> true -> is_transition t = false.
Proof. destruct (is_transition t); congruence. Qed.

(** After the cancel no transition-completion poll is pending. *)
Lemma cancelled_no_pending (s : state) :
  wf s -> pending_transitions (cancelled s) = [].
Proof.
  intros (_ & _ & W). apply filter_none. intros t Ht.
  apply in_timers_cancelled in Ht as (Hin & Htr & _).
  apply not_transition. intros Hyes. apply Htr, W; assumption.
Qed.

Lemma wf_cancelled (s : state) : wf s -> wf (cancelled s).
Proof.
  intros W. pose proof (cancelled_no_pending s W) as Hnone.
  destruct W as (W1 & W2 & W3).
  split; [|split].
  - intros t Ht. apply in_timers_cancelled in Ht as (Hin & _). apply W1, Hin.
  - unfold cancelled; simpl. now apply NoDup_cancel_handle, NoDup_cancel_handle.
  - intros t Ht Htr.
    assert (Hin : In t (pending_transitions (cancelled s))).
    { apply filter_In. now split. }
    rewrite Hnone in Hin. destruct Hin.
Qed.

Lemma preserves_cancel : preserves _async_cancel_scheduled_transition_update.
Proof. intros s W. rewrite cancel_result. now apply wf_cancelled. Qed.

Lemma NoDup_app_iff_fresh (l : list nat) (n : nat) :
  NoDup l /\ ~ In n l -> NoDup (l ++ [n]).
Proof.
  intros [Hl Hn].
  induction Hl as [|a l Ha Hl IH]; simpl.
  - constructor; [intros []|constructor].
  - constructor.
    + intros Hin. apply in_app_iff in Hin as [Hin|[->|[]]]; [auto|].
      apply Hn. now left.
    + apply IH. intros Hin. apply Hn. now right.
Qed.

(** Arming a poll when none is pending leaves exactly that one. *)
Lemma armed_pending (est : Z) (s : state) :
  pending_transitions s = [] ->
  pending_transitions (armed est s) = [new_poll est s].
Proof.
  intros Hnone. unfold pending_transitions, armed; simpl.
  rewrite filter_app. fold (pending_transitions s). rewrite Hnone. reflexivity.
Qed.

Lemma wf_armed (est : Z) (s : state) :
  wf s -> pending_transitions s = [] -> wf (armed est s).
Proof.
  intros (W1 & W2 & W3) Hnone.
  split; [|split]; unfold armed; simpl.
  - intros t Ht. apply in_app_iff in Ht as [Ht|[<-|[]]]; simpl.
    + specialize (W1 t Ht). lia.
    + lia.
  - rewrite map_app; simpl.
    apply NoDup_app_iff_fresh.
    split; [exact W2|].
    intros Hin. apply in_map_iff in Hin as (t & Ht & Hin).
    specialize (W1 t Hin). lia.
  - intros t Ht Htr. apply in_app_iff in Ht as [Ht|[<-|[]]]; simpl.
    + assert (Hin : In t (pending_transitions s)) by (apply filter_In; now split).
      rewrite Hnone in Hin. destruct Hin.
    + reflexivity.
Qed.


Lemma preserves_schedule (steps : Z) :
  preserves (_async_schedule_update_for_transition steps).
Proof.
  intros s W. rewrite schedule_result.
  destruct (est_time_to_complete_transition steps); simpl.
  - apply wf_armed; [apply wf_cancelled, W|apply cancelled_no_pending, W].
  - apply wf_cancelled, W.
Qed.

Lemma preserves_keeps {A : Type} (m : M A) : keeps_timers m -> preserves m.
Proof. intros H s W. eapply same_timers_wf; [apply H|exact W]. Qed.

Lemma preserves_bind {A B : Type} (m : M A) (k : A -> M B) :
  preserves m -> (forall a, preserves (k a)) -> preserves (mbind m k).
Proof.
  intros Hm Hk s W. specialize (Hm s W). unfold mbind.
  destruct (m s) as [s' [a|e]]; simpl in *; [apply Hk, Hm|exact Hm].
Qed.

(** A move schedules, then only touches positions, flags and the
    requests sent. *)
Lemma preserves_schedule_then {A : Type} (steps : Z) (k : M A) :
  keeps_timers k ->
  preserves (_async_schedule_update_for_transition steps >> k).
Proof.
  intros Hk. apply preserves_bind; [apply preserves_schedule|].
  intros _. apply preserves_keeps, Hk.
Qed.

Lemma keeps_move_tail (f : state -> PowerviewShadeMove)
  (response : result (option position_data)) (o c : bool) :
  keeps_timers ((fun s => _async_execute_move (f s) response s) >> set_flags o c).
Proof.
  apply keeps_bind.
  - apply (keeps_reading f (fun mv => _async_execute_move mv response)).
    intros mv. apply keeps_execute_move.
  - intros _. apply keeps_set_flags.
Qed.

Lemma keeps_eval_move (f : state -> result PowerviewShadeMove)
  (response : result (option position_data)) :
  keeps_timers (move <~ eval f ;; _async_execute_move move response).
Proof.
  apply keeps_bind; [apply keeps_eval|]. intros mv. apply keeps_execute_move.
Qed.

Lemma preserves_run (c : call) : preserves (run c).
Proof.
  destruct c; simpl.
  - unfold async_open_cover.
    apply preserves_bind; [apply preserves_keeps, keeps_eval|]. intros k.
    apply preserves_schedule_then, keeps_move_tail.
  - unfold async_close_cover.
    apply preserves_bind; [apply preserves_keeps, keeps_eval|]. intros k.
    apply preserves_schedule_then, keeps_move_tail.
  - unfold _async_set_cover_position.
    apply preserves_bind; [apply preserves_keeps, keeps_eval|]. intros t.
    apply preserves_bind; [apply preserves_keeps, keeps_eval|]. intros p.
    apply preserves_schedule_then.
    apply keeps_bind; [apply keeps_eval|]. intros mv.
    apply keeps_bind; [apply keeps_execute_move|]. intros _.
    apply keeps_set_flags.
  - unfold async_open_cover_tilt.
    apply preserves_bind; [apply preserves_keeps, keeps_eval|]. intros k.
    apply preserves_schedule_then, keeps_eval_move.
  - unfold async_close_cover_tilt.
    apply preserves_bind; [apply preserves_keeps, keeps_eval|]. intros k.
    apply preserves_schedule_then, keeps_eval_move.
  - unfold _async_set_cover_tilt_position.
    apply preserves_bind; [apply preserves_keeps, keeps_eval|]. intros p.
    apply preserves_bind; [apply preserves_keeps, keeps_eval|]. intros k.
    apply preserves_schedule_then, keeps_eval_move.
  - unfold async_stop_cover.
    apply preserves_bind; [apply preserves_cancel|]. intros _.
    apply preserves_keeps.
    apply keeps_bind; [apply keeps_eval|]. intros r.
    apply keeps_bind; [apply keeps_modify; intros s; destruct r; repeat split|].
    intros _. apply keeps_async_update.
  - apply preserves_cancel.
  - apply preserves_keeps, keeps_async_update.
  - apply preserves_keeps. intros s. unfold _async_update_shade_from_group.
    destruct (_update_in_progress s); repeat split.
Qed.

Lemma in_fire (t u : timer) (s : state) :
  In u (timers (fire t s)) <-> In u (timers s) /\ timer_handle u <> timer_handle t.
Proof.
  unfold fire, cancel_timer; simpl. rewrite filter_In. unfold has_handle.
  destruct (Nat.eqb_spec (timer_handle u) (timer_handle t)); simpl; intuition congruence.
Qed.

Lemma wf_fire_transition (t : timer) (s : state) :
  wf s -> In t (timers s) -> timer_action t = cb_complete_schedule_update ->
  wf (fst (complete_schedule_update_begin (fire t s))).
Proof.
  intros (W1 & W2 & W3) Hin Hact.
  assert (Ht : is_transition t = true) by (unfold is_transition; now rewrite Hact).
  split; [|split]; simpl.
  - intros u Hu. apply (in_fire t u s) in Hu as [Hu _]. apply W1, Hu.
  - apply NoDup_handles_filter, W2.
  - intros u Hu Htr. apply (in_fire t u s) in Hu as [Hu Hne].
    exfalso. apply Hne.
    pose proof (W3 u Hu Htr) as E1. pose proof (W3 t Hin Ht) as E2.
    congruence.
Qed.

Lemma wf_fire_resync (t : timer) (s : state) :
  wf s -> wf (fst (force_resync_begin (fire t s))).
Proof.
  intros (W1 & W2 & W3).
  split; [|split]; simpl.
  - intros u Hu. apply (in_fire t u s) in Hu as [Hu _]. apply W1, Hu.
  - apply NoDup_handles_filter, W2.
  - intros u Hu Htr. apply (in_fire t u s) in Hu as [Hu _]. apply W3; assumption.
Qed.

Lemma preserves_complete_end : preserves complete_schedule_update_end.
Proof.
  intros s (W1 & W2 & W3).
  split; [|split]; simpl.
  - intros t Ht. apply in_app_iff in Ht as [Ht|[<-|[]]]; simpl.
    + specialize (W1 t Ht). lia.
    + lia.
  - rewrite map_app; simpl. apply NoDup_app_iff_fresh.
    split; [exact W2|].
    intros Hin. apply in_map_iff in Hin as (t & Ht & Hin).
    specialize (W1 t Hin). lia.
  - intros t Ht Htr. apply in_app_iff in Ht as [Ht|[<-|[]]].
    + apply W3; assumption.
    + discriminate Htr.
Qed.

Lemma preserves_complete_resume (refreshed : result position_data) :
  preserves (complete_schedule_update_resume refreshed).
Proof.
  apply preserves_bind; [apply preserves_keeps, keeps_eval|]. intros r.
  apply preserves_bind; [apply preserves_keeps, keeps_update_shade_data|].
  intros _. apply preserves_complete_end.
Qed.

Lemma keeps_resync_resume (refreshed : result position_data) :
  keeps_timers (force_resync_resume refreshed).
Proof.
  apply keeps_bind; [apply keeps_eval|]. intros r. apply keeps_update_shade_data.
Qed.

(** The callbacks as the source has them are the part run at the firing
    followed, when the refresh was awaited, by the part run after it. *)
Lemma complete_schedule_update_split (refreshed : result position_data) (s : state) :
  let s1 := fst (complete_schedule_update_begin s) in
  fst (_async_complete_schedule_update refreshed s)
  = if _update_in_progress s1
    then fst (complete_schedule_update_end s1)
    else fst (complete_schedule_update_resume refreshed s1).
Proof.
  unfold _async_complete_schedule_update, _async_force_refresh_state,
    complete_schedule_update_resume, async_update, mbind at 1 2.
  simpl.
  destruct (_update_in_progress _); [reflexivity|].
  unfold mbind, eval. destruct refreshed; reflexivity.
Qed.

Lemma force_resync_split (refreshed : result position_data) (s : state) :
  let s1 := fst (force_resync_begin s) in
  fst (_async_force_resync refreshed s)
  = if _update_in_progress s1 then s1
    else fst (force_resync_resume refreshed s1).
Proof.
  unfold _async_force_resync, _async_force_refresh_state, force_resync_resume,
    async_update, mbind at 1.
  simpl.
  destruct (_update_in_progress _); [reflexivity|].
  unfold mbind, eval. destruct refreshed; reflexivity.
Qed.

Lemma wf_step (l l' : loop_state) : step l l' -> wf (fst l) -> wf (fst l').
Proof.
  intros Hstep W. destruct Hstep as [c s k|t s k Hin Hact|refreshed s k1 k2
                                    |t s k Hin Hact|refreshed s k1 k2].
  - exact (preserves_run c s W).
  - pose proof (wf_fire_transition t s W Hin Hact) as W1.
    unfold transition_fires.
    destruct (_update_in_progress _);
      [exact (preserves_complete_end _ W1)|exact W1].
  - exact (preserves_complete_resume refreshed s W).
  - pose proof (wf_fire_resync t s W) as W1.
    unfold resync_fires.
    destruct (_update_in_progress _); exact W1.
  - exact (preserves_keeps _ (keeps_resync_resume refreshed) s W).
Qed.

Lemma wf_initial c open close p : wf (initial c open close p).
Proof.
  split; [|split]; simpl.
  - intros t [].
  - constructor.
  - intros t [].
Qed.

Lemma reachable_loop_wf (l : loop_state) : reachable_loop l -> wf (fst l).
Proof.
  induction 1 as [c open close p|l l' _ IH Hstep].
  - apply wf_initial.
  - eapply wf_step; eassumption.
Qed.

Lemma reachable_wf (s : state) : reachable s -> wf s.
Proof. intros [k Hk]. apply (reachable_loop_wf (s, k) Hk). Qed.

Lemma reachable_initial c open close p : reachable (initial c open close p).
Proof. exists []. apply reachable_loop_initial. Qed.

Lemma reachable_call (c : call) (s : state) :
  reachable s -> reachable (fst (run c s)).
Proof.
  intros [k Hk]. exists k.
  apply (reachable_loop_step (s, k)); [exact Hk|apply step_call].
Qed.

Lemma at_most_one {A : Type} (key : A -> nat) (p : A -> bool) (l : list A) :
  NoDup (map key l) ->
  (forall a b, In a l -> In b l -> p a = true -> p b = true -> key a = key b) ->
  (List.length (filter p l) <= 1)%nat.
Proof.
  induction l as [|a l IH]; simpl; intros Hnd Hsame; [lia|].
  inversion Hnd as [|x xs Hnotin Hnd']; subst.
  destruct (p a) eqn:Hpa.
  - rewrite filter_none; [simpl; lia|].
    intros b Hb. destruct (p b) eqn:Hpb; [|reflexivity].
    exfalso. apply Hnotin.
    rewrite (Hsame a b); auto.
    apply in_map, Hb.
  - apply IH; [exact Hnd'|]. intros x y Hx Hy. apply Hsame; now right.
Qed.

(** In a well-formed state at most one transition-completion poll is
    pending. *)
Lemma wf_at_most_one_pending (s : state) :
  wf s -> (List.length (pending_transitions s) <= 1)%nat.
Proof.
  intros (_ & W2 & W3). apply (at_most_one timer_handle); [exact W2|].
  intros a b Ha Hb Hpa Hpb.
  pose proof (W3 a Ha Hpa) as E1. pose proof (W3 b Hb Hpb) as E2. congruence.
Qed.


(** A shade that is 20 percent open, and the same shade after an open
    request (one poll pending). *)
Definition shade_at_20 : state := plain_shade_at 13107.

Definition shade_opening : state := fst (async_open_cover (Ok None) shade_at_20).

Lemma reachable_shade_opening : reachable shade_opening.
Proof.
  apply (reachable_call (call_open (Ok None)) shade_at_20).
  apply reachable_initial.
Qed.

(** X25: whenever a new transition-completion poll is scheduled, the
    cancel runs first: the pending calls whose cancel callables the
    entity holds (transition poll and resync poll) are no longer
    pending and both handles are cleared, no transition-completion poll
    at all is left pending, and only then is the new poll armed, on top
    of that state.  So in every reachable state, and after every
    scheduling, at most one transition-completion poll is pending.  A
    pending resync poll the entity holds no cancel callable of is not
    covered. *)
Theorem schedule_cancels_before_arming (s : state) (steps : Z) :
  reachable s ->
  let s1 := fst (_async_cancel_scheduled_transition_update s) in
  let r := _async_schedule_update_for_transition steps s in
  (_scheduled_transition_update (self s1) = None
   /\ _forced_resync (self s1) = None)
  /\ (forall t, In t (timers s) ->
      _scheduled_transition_update (self s) = Some (timer_handle t)
      \/ _forced_resync (self s) = Some (timer_handle t) ->
      ~ In t (timers s1))
  /\ (forall t, In t (timers s) -> is_transition t = true -> ~ In t (timers s1))
  /\ (forall t, In t (timers s1) -> In t (timers s))
  /\ (forall est, est_time_to_complete_transition steps = Ok est ->
      snd r = Ok tt
      /\ timers (fst r) = timers s1 ++ [new_poll est s1]
      /\ _scheduled_transition_update (self (fst r))
         = Some (timer_handle (new_poll est s1))
      /\ _forced_resync (self (fst r)) = None
      /\ pending_transitions (fst r) = [new_poll est s1])
  /\ (forall e, est_time_to_complete_transition steps = Raise e ->
      r = (s1, Raise e))
  /\ (List.length (pending_transitions s) <= 1)%nat
  /\ (List.length (pending_transitions (fst r)) <= 1)%nat.
Proof.
  intros Hreach s1 r. pose proof (reachable_wf s Hreach) as W.
  subst s1 r. rewrite cancel_result, schedule_result. simpl fst.
  split; [split; reflexivity|].
  split.
  { intros t Hin Hheld Hstill.
    apply in_timers_cancelled in Hstill as (_ & Htr & Hrs). tauto. }
  split.
  { intros t Hin Htr Hstill.
    assert (Hp : In t (pending_transitions (cancelled s))) by (apply filter_In; now split).
    rewrite (cancelled_no_pending s W) in Hp. destruct Hp. }
  split.
  { intros t Hin. apply in_timers_cancelled in Hin. tauto. }
  split.
  { intros est Hest. rewrite Hest. simpl.
    repeat split. apply armed_pending, cancelled_no_pending, W. }
  split.
  { intros e He. rewrite He. reflexivity. }
  split; [apply wf_at_most_one_pending, W|].
  apply wf_at_most_one_pending.
  destruct (est_time_to_complete_transition steps); simpl.
  - apply wf_armed; [apply wf_cancelled, W|apply cancelled_no_pending, W].
  - apply wf_cancelled, W.
Qed.

Lemma schedule_cancels_witness :
  reachable shade_opening
  /\ pending_transitions shade_opening
     = [{| timer_handle := 0; timer_delay := 33;
           timer_action := cb_complete_schedule_update |}]
  /\ pending_transitions
       (fst (_async_schedule_update_for_transition 50 shade_opening))
     = [{| timer_handle := 1; timer_delay := 21;
           timer_action := cb_complete_schedule_update |}]
  /\ (List.length
        (pending_transitions
           (fst (_async_schedule_update_for_transition 50 shade_opening))) <= 1)%nat.
Proof.
  split; [apply reachable_shade_opening|].
  split; [vm_compute; reflexivity|].
  split; [vm_compute; reflexivity|].
  apply (schedule_cancels_before_arming shade_opening 50 reachable_shade_opening).
Defined.

(** The delay of the poll a scheduling arms. *)
Lemma schedule_delay (steps est : Z) (s : state) :
  wf s ->
  est_time_to_complete_transition steps = Ok est ->
  let r := _async_schedule_update_for_transition steps s in
  snd r = Ok tt
  /\ map timer_delay (pending_transitions (fst r)) = [est]
  /\ scheduled_delay (fst r) = Some est.
Proof.
  intros W Hest r. subst r. rewrite schedule_result, Hest. simpl fst; simpl snd.
  split; [reflexivity|]. split.
  - rewrite armed_pending by (apply cancelled_no_pending, W). reflexivity.
  - pose proof (wf_cancelled s W) as (W1 & _).
    unfold scheduled_delay, delay_of, armed; simpl.
    rewrite filter_app, filter_none.
    + simpl. unfold has_handle; simpl. rewrite Nat.eqb_refl. reflexivity.
    + intros t Ht. specialize (W1 t Ht). simpl in W1.
      unfold has_handle. apply Nat.eqb_neq. lia.
Qed.

Lemma open_cover_timers (k : Z) (response : result (option position_data)) (s : state) :
  transition_steps s = Ok k ->
  same_timers (fst (_async_schedule_update_for_transition (100 - k) s))
    (fst (async_open_cover response s)).
Proof.
  intros Hk. unfold async_open_cover, mbind at 1, eval. rewrite Hk.
  apply bind_same_timers. intros _. apply keeps_move_tail.
Qed.

Lemma close_cover_timers (k : Z) (response : result (option position_data)) (s : state) :
  transition_steps s = Ok k ->
  same_timers (fst (_async_schedule_update_for_transition k s))
    (fst (async_close_cover response s)).
Proof.
  intros Hk. unfold async_close_cover, mbind at 1, eval. rewrite Hk.
  apply bind_same_timers. intros _. apply keeps_move_tail.
Qed.





(** On positions of the vendor range the three properties the movement
    operations read are the exact percentages. *)
Lemma transition_steps_sum (s : state) :
  in_vendor_range s -> transition_steps s = Ok (steps_sum s).
Proof.
  intros (Hp & Hs & Hv).
  pose proof (hd_position_to_hass_exact _ Hp) as Ep.
  unfold transition_steps, steps_sum, vane_percent.
  destruct (cls (self s)); cbv beta iota delta [is_tdbu is_tilt vane_scale _max_tilt] in *.
  - exact Ep.
  - rewrite Ep, (hd_position_to_hass_exact _ (Hs eq_refl)). reflexivity.
  - rewrite Ep, (hd_position_to_hass_exact _ (Hs eq_refl)). reflexivity.
  - rewrite Ep. unfold bind.
    rewrite (hd_position_to_hass_exact _ (Hv eq_refl)). reflexivity.
  - rewrite Ep. unfold bind.
    rewrite (hd_position_to_hass_silhouette _ (Hv eq_refl)). reflexivity.
Qed.



Lemma movement_percent_ranges (s : state) :
  in_vendor_range s ->
  0 <= position_percent s <= 100
  /\ 0 <= steps_sum s - position_percent s <= 100
  /\ (forall t, 0 <= t <= 100 -> 0 <= clamped_target t s <= 100)
  /\ (is_tilt (cls (self s)) = true ->
      steps_sum s - position_percent s = vane_percent s)
  /\ (cls (self s) = PowerViewShade -> steps_sum s = position_percent s).
Proof.
  intros (Hp & Hs & Hv).
  pose proof (nearest_percent_range _ Hp) as Rp.
  unfold position_percent, steps_sum, clamped_target, vane_percent.
  destruct (cls (self s)); cbv beta iota delta [is_tdbu is_tilt vane_scale] in *.
  - split; [lia|]. split; [lia|]. split; [intros t Ht; lia|].
    split; [discriminate|reflexivity].
  - pose proof (nearest_percent_range _ (Hs eq_refl)) as Rs.
    split; [lia|]. split; [lia|]. split; [intros t Ht; lia|].
    split; discriminate.
  - pose proof (nearest_percent_range _ (Hs eq_refl)) as Rs.
    split; [lia|]. split; [lia|]. split; [intros t Ht; lia|].
    split; discriminate.
  - pose proof (nearest_percent_range _ (Hv eq_refl)) as Rv.
    split; [lia|]. split; [lia|]. split; [intros t Ht; lia|].
    split; [intros _; lia|discriminate].
  - pose proof (nearest_percent_silhouette_range _ (Hv eq_refl)) as Rv.
    split; [lia|]. split; [lia|]. split; [intros t Ht; lia|].
    split; [intros _; lia|discriminate].
Qed.






(** A tilt entity whose primary position reads 100 percent and whose
    vane reads 50 percent. *)
Definition tilt_shade_stale : state :=
  initial PowerViewShadeWithTilt
    {| position1 := Some (POS_KIND_PRIMARY, MAX_POSITION); position2 := None |}
    {| position1 := Some (POS_KIND_PRIMARY, MIN_POSITION); position2 := None |}
    {| primary := 65535; secondary := 0; vane := 32768 |}.



(** *** The two rails of a top-down/bottom-up shade *)

(** C4: for every dual-rail bottom entity whose rails are in the vendor
    range and every requested target t in [0, 100], set-position sends
    the hub a bottom position whose percentage, added to the top rail's
    current percentage, is at most 100: the target is clamped to
    [min(t, 100 - top)] and the clamped percentage is what the vendor
    position sent converts back to. *)
Theorem bottom_rail_clamped (s : state) (t : Z)
  (response : result (option position_data)) :
  cls (self s) = PowerViewShadeTDBUBottom ->
  0 <= primary (positions s) <= 65535 ->
  0 <= secondary (positions s) <= 65535 ->
  0 <= t <= 100 ->
  exists bottom top commanded,
    hd_position_to_hass (secondary (positions s)) MAX_POSITION = Ok top
    /\ _clamp_cover_limit t s = Ok bottom
    /\ bottom = Z.min t (100 - top)
    /\ 0 <= bottom /\ bottom + top <= 100
    /\ sent (fst (_async_set_cover_position t response s))
       = sent s ++ [{| position1 := Some (POS_KIND_PRIMARY, commanded);
                       position2 := Some (POS_KIND_SECONDARY, secondary (positions s)) |}]
    /\ hass_position_to_hd bottom MAX_POSITION = Ok commanded
    /\ hd_position_to_hass commanded MAX_POSITION = Ok bottom.
Proof.
  intros Hcls Hprimary Hsecondary Ht.
  set (top := nearest_percent (secondary (positions s))).
  set (position := nearest_percent (primary (positions s))).
  assert (Htop : 0 <= top <= 100) by (apply nearest_percent_range, Hsecondary).
  assert (Hposition : 0 <= position <= 100) by (apply nearest_percent_range, Hprimary).
  set (bottom := Z.min t (100 - top)).
  assert (Hbottom : 0 <= bottom <= 100) by (unfold bottom; lia).
  exists bottom, top, (truncated_position bottom).
  assert (Hcover_top : hd_position_to_hass (secondary (positions s)) MAX_POSITION = Ok top)
    by (apply hd_position_to_hass_exact, Hsecondary).
  assert (Hclamp : _clamp_cover_limit t s = Ok bottom).
  { unfold _clamp_cover_limit. rewrite Hcls, Hcover_top. reflexivity. }
  assert (Hcur : current_cover_position s = Ok position).
  { unfold current_cover_position. rewrite Hcls.
    apply hd_position_to_hass_exact, Hprimary. }
  assert (Hhd : hass_position_to_hd bottom MAX_POSITION = Ok (truncated_position bottom))
    by (apply hass_position_to_hd_exact, Hbottom).
  split; [exact Hcover_top|]. split; [exact Hclamp|]. split; [reflexivity|].
  split; [lia|]. split; [unfold bottom; lia|].
  split; [|split; [exact Hhd|]].
  - unfold _async_set_cover_position, mbind at 1, eval. rewrite Hclamp.
    unfold mbind at 1. rewrite Hcur.
    unfold mbind at 1. rewrite schedule_result.
    rewrite (est_time_exact (Z.abs (position - bottom))) by lia.
    unfold mbind at 1.
    unfold _get_shade_move. simpl cls. rewrite Hcls, Hhd. simpl.
    unfold _async_execute_move, mbind, modify, eval, set_flags.
    destruct response as [[d|]|e]; reflexivity.
  - rewrite (hd_position_to_hass_exact _ (truncated_position_range bottom Hbottom)).
    f_equal. apply nearest_percent_of_truncated, Hbottom.
Qed.

(** A bottom rail at 30 percent under a top rail at 60 percent. *)
Definition bottom_rail_30_under_60 : state :=
  initial PowerViewShadeTDBUBottom
    {| position1 := Some (POS_KIND_PRIMARY, MAX_POSITION);
       position2 := Some (POS_KIND_SECONDARY, MIN_POSITION) |}
    {| position1 := Some (POS_KIND_PRIMARY, MIN_POSITION);
       position2 := Some (POS_KIND_SECONDARY, MIN_POSITION) |}
    {| primary := 19660; secondary := 39321; vane := 0 |}.

Lemma bottom_rail_clamped_witness :
  exists bottom top commanded,
    hd_position_to_hass (secondary (positions bottom_rail_30_under_60)) MAX_POSITION = Ok top
    /\ _clamp_cover_limit 75 bottom_rail_30_under_60 = Ok bottom
    /\ bottom = Z.min 75 (100 - top)
    /\ 0 <= bottom /\ bottom + top <= 100
    /\ sent (fst (_async_set_cover_position 75 (Ok None) bottom_rail_30_under_60))
       = sent bottom_rail_30_under_60
         ++ [{| position1 := Some (POS_KIND_PRIMARY, commanded);
                position2 := Some (POS_KIND_SECONDARY,
                                   secondary (positions bottom_rail_30_under_60)) |}]
    /\ hass_position_to_hd bottom MAX_POSITION = Ok commanded
    /\ hd_position_to_hass commanded MAX_POSITION = Ok bottom.
Proof.
  apply (bottom_rail_clamped bottom_rail_30_under_60 75 (Ok None));
    [reflexivity|simpl; lia|simpl; lia|lia].
Defined.

(** On that shade a request for 75 percent is sent as 40 percent. *)
Lemma bottom_rail_clamped_example :
  _clamp_cover_limit 75 bottom_rail_30_under_60 = Ok 40
  /\ sent (fst (_async_set_cover_position 75 (Ok None) bottom_rail_30_under_60))
     = [{| position1 := Some (POS_KIND_PRIMARY, 26214);
           position2 := Some (POS_KIND_SECONDARY, 39321) |}].
Proof. split; vm_compute; reflexivity. Qed.


(** *** Setup *)

Section Setup.

Variable refresh : raw_shade -> result raw_shade.
Variable room_data : list (Z * string).

Lemma refreshed_shade_after (raw : raw_shade) :
  (forall e, refresh raw = Raise e -> e = TimeoutError) ->
  refreshed_shade refresh (PvShade raw) = Ok (after_refresh refresh raw).
Proof.
  intros Honly. unfold refreshed_shade, after_refresh. simpl.
  destruct (refresh raw) as [raw'|e]; [reflexivity|].
  rewrite (Honly e eq_refl). reflexivity.
Qed.

(** The loop adds, shade by shade, the entities and the notices of
    each, whatever it had collected before. *)
Lemma add_shades_collects (shade_data : list raw_shade) :
  (forall raw e, In raw shade_data -> refresh raw = Raise e -> e = TimeoutError) ->
  forall acc,
    let r := add_shades refresh room_data shade_data acc in
    snd r = Ok tt
    /\ setup_log (fst r)
       = (setup_log acc ++ flat_map (notices_of refresh) shade_data)%list
    /\ entities (fst r)
       = (entities acc ++ flat_map (entities_of refresh room_data) shade_data)%list.
Proof.
  induction shade_data as [|raw rest IH]; intros Honly acc; simpl.
  - rewrite 2 app_nil_r. auto.
  - rewrite (refreshed_shade_after raw) by (intros e; apply Honly; now left).
    assert (Hrest : forall raw' e, In raw' rest -> refresh raw' = Raise e -> e = TimeoutError)
      by (intros raw' e Hin; apply Honly; now right).
    unfold notices_of at 1, entities_of at 1, lacks_position_data.
    destruct (raw_positions (raw_data (after_refresh refresh raw))) as [d|].
    + destruct (IH Hrest
                  {| coordinator_positions :=
                       update_shade_positions
                         (raw_id (raw_data (after_refresh refresh raw))) d
                         (coordinator_positions acc);
                     setup_log := setup_log acc;
                     entities :=
                       entities acc
                       ++ create_powerview_shade_entity
                            (room_name_of room_data (after_refresh refresh raw))
                            (after_refresh refresh raw) (shade_name (PvShade raw)) |})
        as (Hr & Hl & He).
      split; [exact Hr|]. split; [exact Hl|].
      rewrite He. simpl. rewrite <- app_assoc. reflexivity.
    + destruct (IH Hrest
                  {| coordinator_positions := coordinator_positions acc;
                     setup_log :=
                       setup_log acc
                       ++ [skipped_missing_position_data (shade_name (PvShade raw))];
                     entities := entities acc |})
        as (Hr & Hl & He).
      split; [exact Hr|]. split; [|exact He].
      rewrite Hl. simpl. rewrite <- app_assoc. reflexivity.
Qed.

Lemma created_entities_not_empty (room : string) (shade : BaseShade) (name : string) :
  create_powerview_shade_entity room shade name <> [].
Proof.
  unfold create_powerview_shade_entity.
  destruct (shade_kind shade) as [| |[|]]; discriminate.
Qed.

Lemma created_entity_shade (room : string) (shade : BaseShade) (name : string)
  (e : shade_entity) :
  In e (create_powerview_shade_entity room shade name) -> entity_shade e = shade.
Proof.
  unfold create_powerview_shade_entity. intros Hin.
  apply in_map_iff in Hin as (c & <- & _). reflexivity.
Qed.

(** C8: when no refresh raises anything but a timeout, the setup
    completes and hands the host the entities of every shade that has
    position data, in order; every shade whose raw data lacks position
    data adds no entity and one logged notice that names it; and no
    entity handed over is built on a shade without position data. *)
Theorem shades_without_position_data_skipped (shade_data : list raw_shade) :
  (forall raw e, In raw shade_data -> refresh raw = Raise e -> e = TimeoutError) ->
  let r := async_setup_entry refresh room_data shade_data in
  let added := flat_map (entities_of refresh room_data) shade_data in
  snd r = Ok added
  /\ setup_log (fst r) = flat_map (notices_of refresh) shade_data
  /\ (forall raw, In raw shade_data -> lacks_position_data refresh raw = true ->
      entities_of refresh room_data raw = []
      /\ In (skipped_missing_position_data (raw_name raw)) (setup_log (fst r)))
  /\ (forall raw, In raw shade_data -> lacks_position_data refresh raw = false ->
      notices_of refresh raw = []
      /\ entities_of refresh room_data raw <> []
      /\ forall e, In e (entities_of refresh room_data raw) -> In e added)
  /\ (forall e, In e added -> raw_positions (raw_data (entity_shade e)) <> None).
Proof.
  intros Honly r added.
  destruct (add_shades_collects shade_data Honly empty_setup) as (Hr & Hl & He).
  simpl in Hl, He.
  assert (Hadded : snd r = Ok added /\
                   setup_log (fst r) = flat_map (notices_of refresh) shade_data).
  { subst r. unfold async_setup_entry.
    destruct (add_shades refresh room_data shade_data empty_setup) as [acc [u|e]];
      simpl in *; [|discriminate].
    rewrite He, Hl. auto. }
  destruct Hadded as (Hsnd & Hlog).
  split; [exact Hsnd|]. split; [exact Hlog|]. split; [|split].
  - intros raw Hin Hlacks. split.
    + unfold entities_of. now rewrite Hlacks.
    + rewrite Hlog. apply in_flat_map. exists raw. split; [exact Hin|].
      unfold notices_of. rewrite Hlacks. now left.
  - intros raw Hin Hhas. split; [|split].
    + unfold notices_of. now rewrite Hhas.
    + unfold entities_of. rewrite Hhas. apply created_entities_not_empty.
    + intros e He'. apply in_flat_map. exists raw. now split.
  - intros e Hin. apply in_flat_map in Hin as (raw & _ & Hin).
    unfold entities_of in Hin.
    destruct (lacks_position_data refresh raw) eqn:Hlacks; [destruct Hin|].
    apply created_entity_shade in Hin. rewrite Hin.
    unfold lacks_position_data in Hlacks.
    destruct (raw_positions (raw_data (after_refresh refresh raw))); congruence.
Qed.

End Setup.

(** Three shades: the first has no position data and its refresh times
    out, the second is a top-down/bottom-up shade, the third a plain
    shade whose refresh brings its position data. *)
Definition shade_without_positions : raw_shade :=
  {| raw_id := 1; raw_name := "Hall"; raw_type := OtherShade false;
     raw_positions := None; raw_room_id := None |}.

Definition tdbu_shade : raw_shade :=
  {| raw_id := 2; raw_name := "Study"; raw_type := ShadeTdbu;
     raw_positions :=
       Some {| position1 := Some (POS_KIND_PRIMARY, 0);
               position2 := Some (POS_KIND_SECONDARY, 0) |};
     raw_room_id := Some 7 |}.

Definition late_shade : raw_shade :=
  {| raw_id := 3; raw_name := "Attic"; raw_type := OtherShade false;
     raw_positions := None; raw_room_id := Some 7 |}.

Definition sample_refresh (raw : raw_shade) : result raw_shade :=
  if raw_id raw =? 1 then Raise TimeoutError
  else if raw_id raw =? 3 then
    Ok {| raw_id := 3; raw_name := "Attic"; raw_type := OtherShade false;
          raw_positions :=
            Some {| position1 := Some (POS_KIND_PRIMARY, 65535);
                    position2 := None |};
          raw_room_id := Some 7 |}
  else Ok raw.

Definition sample_shade_data : list raw_shade :=
  [shade_without_positions; tdbu_shade; late_shade].

Lemma shades_skipped_witness :
  let r := async_setup_entry sample_refresh [(7, "Upstairs"%string)] sample_shade_data in
  let added := flat_map (entities_of sample_refresh [(7, "Upstairs"%string)]) sample_shade_data in
  (snd r = Ok added
   /\ setup_log (fst r) = flat_map (notices_of sample_refresh) sample_shade_data)
  /\ map entity_cls added
     = [PowerViewShadeTDBUTop; PowerViewShadeTDBUBottom; PowerViewShade]
  /\ setup_log (fst r) = [skipped_missing_position_data "Hall"].
Proof.
  split; [|split; vm_compute; reflexivity].
  destruct (shades_without_position_data_skipped sample_refresh [(7, "Upstairs"%string)]
              sample_shade_data) as (H1 & H2 & _).
  - intros raw e [<-|[<-|[<-|[]]]]; vm_compute; congruence.
  - split; assumption.
Defined.

(** *** Further properties of the conversions *)

Lemma nearest_percent_bounds (p : Z) :
  131070 * nearest_percent p <= 200 * p + 65535
  < 131070 * nearest_percent p + 131070.
Proof.
  unfold nearest_percent.
  pose proof (Z.div_mod (200 * p + 65535) 131070 ltac:(lia)) as E.
  pose proof (Z.mod_pos_bound (200 * p + 65535) 131070 ltac:(lia)) as B.
  lia.
Qed.

Lemma truncated_position_bounds (h : Z) :
  100 * truncated_position h <= h * 65535 < 100 * truncated_position h + 100.
Proof.
  unfold truncated_position.
  pose proof (Z.div_mod (h * 65535) 100 ltac:(lia)) as E.
  pose proof (Z.mod_pos_bound (h * 65535) 100 ltac:(lia)) as B.
  lia.
Qed.

(** X9: on the vendor range the percentage never raises, lies in
    [0, 100], is 0 at position 0 and 100 at position 65535, and never
    decreases when the position grows. *)
Theorem hd_position_to_hass_monotone (p q : Z) :
  0 <= p <= q -> q <= 65535 ->
  exists a b,
    hd_position_to_hass p MAX_POSITION = Ok a
    /\ hd_position_to_hass q MAX_POSITION = Ok b
    /\ 0 <= a <= b /\ b <= 100
    /\ hd_position_to_hass 0 MAX_POSITION = Ok 0
    /\ hd_position_to_hass 65535 MAX_POSITION = Ok 100.
Proof.
  intros Hpq Hq.
  exists (nearest_percent p), (nearest_percent q).
  pose proof (nearest_percent_bounds p). pose proof (nearest_percent_bounds q).
  split; [apply hd_position_to_hass_exact; lia|].
  split; [apply hd_position_to_hass_exact; lia|].
  split; [lia|]. split; [lia|].
  split; [apply (hd_position_to_hass_exact 0); lia|].
  apply (hd_position_to_hass_exact 65535); lia.
Qed.

Lemma hd_position_to_hass_monotone_witness :
  exists a b,
    hd_position_to_hass 327 MAX_POSITION = Ok a
    /\ hd_position_to_hass 328 MAX_POSITION = Ok b
    /\ 0 <= a <= b /\ b <= 100
    /\ hd_position_to_hass 0 MAX_POSITION = Ok 0
    /\ hd_position_to_hass 65535 MAX_POSITION = Ok 100.
Proof. apply (hd_position_to_hass_monotone 327 328); lia. Defined.

(** X10: on percentages the vendor position never raises, lies in
    [0, 65535], and is strictly increasing: two different percentages
    are never sent as the same vendor position (they are at least 655
    apart). *)
Theorem hass_position_to_hd_increasing (h k : Z) :
  0 <= h < k -> k <= 100 ->
  exists a b,
    hass_position_to_hd h MAX_POSITION = Ok a
    /\ hass_position_to_hd k MAX_POSITION = Ok b
    /\ 0 <= a /\ a + 655 <= b /\ b <= 65535.
Proof.
  intros Hhk Hk.
  exists (truncated_position h), (truncated_position k).
  pose proof (truncated_position_bounds h). pose proof (truncated_position_bounds k).
  split; [apply hass_position_to_hd_exact; lia|].
  split; [apply hass_position_to_hd_exact; lia|].
  lia.
Qed.

Lemma hass_position_to_hd_increasing_witness :
  exists a b,
    hass_position_to_hd 49 MAX_POSITION = Ok a
    /\ hass_position_to_hd 50 MAX_POSITION = Ok b
    /\ 0 <= a /\ a + 655 <= b /\ b <= 65535.
Proof. apply (hass_position_to_hd_increasing 49 50); lia. Defined.

(** A tilt percentage sent with scale [m] and read back with it. *)
Definition tilt_comes_back (m h : Z) : bool :=
  match hass_position_to_hd h m with
  | Ok v => result_is (hd_position_to_hass v m) h && (0 <=? v) && (v <=? m)
  | Raise _ => false
  end.

Lemma tilt_comes_back_all (m h : Z) :
  m = 65535 \/ m = 32767 -> 0 <= h <= 100 -> tilt_comes_back m h = true.
Proof.
  intros [->| ->] Hh.
  - apply (all_from_sound (tilt_comes_back 65535) (Z.to_nat 101) 0);
      [vm_compute; reflexivity|lia].
  - apply (all_from_sound (tilt_comes_back 32767) (Z.to_nat 101) 0);
      [vm_compute; reflexivity|lia].
Qed.

(** X11: for both tilt classes (vane scale 65535, and 32767 for the
    silhouette) and every tilt percentage h in [0, 100], the tilt
    request carries a vane position within the class's scale, with the
    primary position expected at its minimum, and a shade whose vane is
    at that position reports tilt h again. *)
Theorem tilt_round_trip (s : state) (h : Z) :
  is_tilt (cls (self s)) = true ->
  0 <= h <= 100 ->
  exists m v,
    _max_tilt (cls (self s)) = Ok m
    /\ _get_shade_tilt h s
       = Ok {| request := {| position1 := Some (POS_KIND_VANE, v);
                             position2 := None |};
               new_positions := [(POS_KIND_PRIMARY, MIN_POSITION)] |}
    /\ 0 <= v <= m
    /\ current_cover_tilt_position
         (with_positions (update_shade_position POS_KIND_VANE v (positions s)) s)
       = Ok h.
Proof.
  intros Htilt Hh.
  assert (Hm : exists m, _max_tilt (cls (self s)) = Ok m /\ (m = 65535 \/ m = 32767)).
  { destruct (cls (self s)); try discriminate; simpl; eauto. }
  destruct Hm as (m & Hm & Hscale).
  pose proof (tilt_comes_back_all m h Hscale Hh) as Hback.
  unfold tilt_comes_back in Hback.
  destruct (hass_position_to_hd h m) as [v|] eqn:Hv; [|discriminate].
  apply andb_prop in Hback as [Hback Hle].
  apply andb_prop in Hback as [Hback Hge].
  apply result_is_true in Hback.
  exists m, v. split; [exact Hm|]. split; [|split; [lia|]].
  - unfold _get_shade_tilt. rewrite Hm. simpl. rewrite Hv. reflexivity.
  - unfold current_cover_tilt_position. simpl. rewrite Hm. simpl. exact Hback.
Qed.

Definition silhouette_shade : state :=
  initial PowerViewShadeSilhouette
    {| position1 := Some (POS_KIND_PRIMARY, MAX_POSITION); position2 := None |}
    {| position1 := Some (POS_KIND_PRIMARY, MIN_POSITION); position2 := None |}
    no_positions.

Lemma tilt_round_trip_witness :
  exists m v,
    _max_tilt (cls (self silhouette_shade)) = Ok m
    /\ _get_shade_tilt 50 silhouette_shade
       = Ok {| request := {| position1 := Some (POS_KIND_VANE, v);
                             position2 := None |};
               new_positions := [(POS_KIND_PRIMARY, MIN_POSITION)] |}
    /\ 0 <= v <= m
    /\ current_cover_tilt_position
         (with_positions
            (update_shade_position POS_KIND_VANE v (positions silhouette_shade))
            silhouette_shade)
       = Ok 50.
Proof. apply (tilt_round_trip silhouette_shade 50); [reflexivity|lia]. Defined.

(** The rail an entity's position and closed test read. *)
Definition own_rail (s : state) : Z :=
  match cls (self s) with
  | PowerViewShadeTDBUTop => secondary (positions s)
  | _ => primary (positions s)
  end.

(** X12: for a rail in the vendor range, the entity is closed exactly
    when its rail is at most 491, and its position reads 0 exactly
    when the rail is at most 327: position 0 implies closed, a closed
    entity reads position 0 or 1, and for rails 328 to 491 it is closed
    while its position reads 1.  The top entity of a dual-rail shade
    reads the secondary rail, every other entity the primary one. *)
Theorem closed_and_position (s : state) :
  0 <= own_rail s <= 65535 ->
  is_closed s = (own_rail s <=? 491)
  /\ exists position,
      current_cover_position s = Ok position
      /\ (position = 0 <-> own_rail s <= 327)
      /\ (position = 0 -> is_closed s = true)
      /\ (is_closed s = true -> 0 <= position <= 1)
      /\ (328 <= own_rail s <= 491 -> is_closed s = true /\ position = 1).
Proof.
  intros Hrail.
  assert (Hclosed : is_closed s = (own_rail s <=? 491)).
  { unfold is_closed, own_rail. destruct (cls (self s)); apply le_CLOSED_POSITION. }
  assert (Hpos : current_cover_position s = Ok (nearest_percent (own_rail s))).
  { unfold current_cover_position, own_rail in *.
    destruct (cls (self s)); apply hd_position_to_hass_exact, Hrail. }
  split; [exact Hclosed|].
  exists (nearest_percent (own_rail s)). split; [exact Hpos|].
  rewrite Hclosed.
  pose proof (nearest_percent_bounds (own_rail s)) as B.
  repeat split; rewrite ?Z.leb_le; intros; lia.
Qed.

Lemma closed_and_position_witness :
  0 <= own_rail (plain_shade_at 400) <= 65535
  /\ is_closed (plain_shade_at 400) = true
  /\ current_cover_position (plain_shade_at 400) = Ok 1.
Proof.
  assert (Hrail : own_rail (plain_shade_at 400) = 400) by reflexivity.
  split; [rewrite Hrail; lia|].
  destruct (closed_and_position (plain_shade_at 400)) as (Hc & p & Hp & _ & _ & _ & H);
    [rewrite Hrail; lia|].
  destruct H as [H1 H2]; [rewrite Hrail; lia|].
  split; [exact H1|]. rewrite Hp, H2. reflexivity.
Defined.

(** X23: the estimated duration of a transition of 0 to 200 steps is
    between 1 and 81 seconds (at most 41 up to 100 steps, the most a
    single rail moves) and never shrinks when the steps grow. *)
Theorem est_time_monotone (a b : Z) :
  0 <= a <= b -> b <= 200 ->
  exists x y,
    est_time_to_complete_transition a = Ok x
    /\ est_time_to_complete_transition b = Ok y
    /\ 1 <= x <= y /\ y <= 81
    /\ (b <= 100 -> y <= 41).
Proof.
  intros Hab Hb.
  exists (1 + 40 * a / 100), (1 + 40 * b / 100).
  split; [apply est_time_exact; lia|].
  split; [apply est_time_exact; lia|].
  pose proof (Z.div_mod (40 * a) 100 ltac:(lia)) as Ea.
  pose proof (Z.mod_pos_bound (40 * a) 100 ltac:(lia)) as Ba.
  pose proof (Z.div_mod (40 * b) 100 ltac:(lia)) as Eb.
  pose proof (Z.mod_pos_bound (40 * b) 100 ltac:(lia)) as Bb.
  repeat split; intros; lia.
Qed.

Lemma est_time_monotone_witness :
  exists x y,
    est_time_to_complete_transition 35 = Ok x
    /\ est_time_to_complete_transition 100 = Ok y
    /\ 1 <= x <= y /\ y <= 81
    /\ (100 <= 100 -> y <= 41).
Proof. apply (est_time_monotone 35 100); lia. Defined.

(** *** Further properties of the moves *)

(** Scheduling touches neither the class nor the positions. *)
Lemma clamp_after_schedule (t est : Z) (s : state) :
  _clamp_cover_limit t (armed est (cancelled s)) = _clamp_cover_limit t s.
Proof. reflexivity. Qed.

Lemma get_shade_move_after_schedule (t est : Z) (s : state) :
  _get_shade_move t (armed est (cancelled s)) = _get_shade_move t s.
Proof. reflexivity. Qed.

(** The state a move leaves once the poll is armed with delay [est],
    the request of [move] sent and answered with [r]. *)
Definition moved (est : Z) (move : PowerviewShadeMove)
  (r : option position_data) (s : state) : state :=
  let s1 := armed est (cancelled s) in
  let optimistic :=
    fold_left (fun p kv => update_shade_position (fst kv) (snd kv) p)
      (new_positions move) (positions s) in
  with_positions
    (match r with
     | Some d => update_from_position_data d optimistic
     | None => optimistic
     end)
    (with_sent (sent s ++ [request move]) s1).

(** Set-position, step by step, when nothing raises. *)
Lemma set_cover_position_run (t t' c est : Z) (move : PowerviewShadeMove)
  (r : option position_data) (s : state) :
  _clamp_cover_limit t s = Ok t' ->
  current_cover_position s = Ok c ->
  est_time_to_complete_transition (Z.abs (c - t')) = Ok est ->
  _get_shade_move t' s = Ok move ->
  _async_set_cover_position t (Ok r) s
  = (with_self (set_moving (c <? t') (t' <? c) (self (moved est move r s)))
       (moved est move r s), Ok tt).
Proof.
  intros Hclamp Hcur Hest Hmove.
  unfold _async_set_cover_position, mbind at 1, eval. rewrite Hclamp.
  unfold mbind at 1. rewrite Hcur.
  unfold mbind at 1. rewrite schedule_result, Hest.
  unfold mbind at 1. rewrite get_shade_move_after_schedule, Hmove.
  destruct r; reflexivity.
Qed.

(** What set-position computes on a shade whose rails are in the
    vendor range, for a target in [0, 100]. *)
Lemma set_cover_position_values (t : Z) (s : state) :
  0 <= primary (positions s) <= 65535 ->
  0 <= secondary (positions s) <= 65535 ->
  0 <= t <= 100 ->
  exists t' c commanded move,
    _clamp_cover_limit t s = Ok t'
    /\ current_cover_position s = Ok c
    /\ 0 <= t' <= t /\ 0 <= c <= 100
    /\ est_time_to_complete_transition (Z.abs (c - t'))
       = Ok (1 + 40 * Z.abs (c - t') / 100)
    /\ hass_position_to_hd t' MAX_POSITION = Ok commanded
    /\ hd_position_to_hass commanded MAX_POSITION = Ok t'
    /\ _get_shade_move t' s = Ok move
    /\ (is_tdbu (cls (self s)) = false -> t' = t)
    /\ (cls (self s) = PowerViewShadeTDBUBottom ->
        t' = Z.min t (100 - nearest_percent (secondary (positions s))))
    /\ (cls (self s) = PowerViewShadeTDBUTop ->
        t' = Z.min t (100 - nearest_percent (primary (positions s)))).
Proof.
  intros Hp Hs Ht.
  pose proof (nearest_percent_range _ Hp) as Rp.
  pose proof (nearest_percent_range _ Hs) as Rs.
  pose proof (hd_position_to_hass_exact _ Hp) as Ep.
  pose proof (hd_position_to_hass_exact _ Hs) as Es.
  set (t' := match cls (self s) with
             | PowerViewShadeTDBUBottom =>
                 Z.min t (100 - nearest_percent (secondary (positions s)))
             | PowerViewShadeTDBUTop =>
                 Z.min t (100 - nearest_percent (primary (positions s)))
             | _ => t
             end).
  set (c := match cls (self s) with
            | PowerViewShadeTDBUTop => nearest_percent (secondary (positions s))
            | _ => nearest_percent (primary (positions s))
            end).
  assert (Ht' : 0 <= t' <= t) by (subst t'; destruct (cls (self s)); lia).
  assert (Hc : 0 <= c <= 100) by (subst c; destruct (cls (self s)); lia).
  assert (Hhd : hass_position_to_hd t' MAX_POSITION = Ok (truncated_position t'))
    by (apply hass_position_to_hd_exact; lia).
  exists t', c, (truncated_position t').
  assert (Hmove : exists move, _get_shade_move t' s = Ok move).
  { unfold _get_shade_move. rewrite Hhd. destruct (cls (self s)); simpl; eauto. }
  destruct Hmove as (move & Hmove). exists move.
  split; [subst t'; unfold _clamp_cover_limit;
          destruct (cls (self s)); rewrite ?Ep, ?Es; reflexivity|].
  split; [subst c; unfold current_cover_position;
          destruct (cls (self s)); assumption|].
  split; [exact Ht'|]. split; [exact Hc|].
  split; [apply est_time_exact; lia|].
  split; [exact Hhd|].
  split; [rewrite (hd_position_to_hass_exact _ (truncated_position_range t' ltac:(lia)));
          f_equal; apply nearest_percent_of_truncated; lia|].
  split; [exact Hmove|].
  subst t'. repeat split; destruct (cls (self s)); (reflexivity || discriminate).
Qed.

(** X13: the top entity of a dual-rail shade mirrors the bottom one:
    for rails in the vendor range and a target t in [0, 100],
    set-position clamps the target to [min(t, 100 - bottom)], so that
    the top percentage sent plus the bottom rail's current percentage
    is at most 100, and the request carries the bottom rail's current
    position unchanged as its primary position. *)
Theorem top_rail_clamped (s : state) (t : Z) (r : option position_data) :
  cls (self s) = PowerViewShadeTDBUTop ->
  0 <= primary (positions s) <= 65535 ->
  0 <= secondary (positions s) <= 65535 ->
  0 <= t <= 100 ->
  exists top bottom commanded,
    hd_position_to_hass (primary (positions s)) MAX_POSITION = Ok bottom
    /\ _clamp_cover_limit t s = Ok top
    /\ top = Z.min t (100 - bottom)
    /\ 0 <= top /\ top + bottom <= 100
    /\ sent (fst (_async_set_cover_position t (Ok r) s))
       = sent s ++ [{| position1 := Some (POS_KIND_PRIMARY, primary (positions s));
                       position2 := Some (POS_KIND_SECONDARY, commanded) |}]
    /\ hd_position_to_hass commanded MAX_POSITION = Ok top.
Proof.
  intros Hcls Hp Hs Ht.
  destruct (set_cover_position_values t s Hp Hs Ht)
    as (t' & c & commanded & move & Hclamp & Hcur & Ht' & Hc & Hest & Hhd & Hback
        & Hmove & _ & _ & Htop).
  specialize (Htop Hcls).
  pose proof (nearest_percent_range _ Hp) as Rp.
  exists t', (nearest_percent (primary (positions s))), commanded.
  split; [apply hd_position_to_hass_exact, Hp|].
  split; [exact Hclamp|]. split; [exact Htop|].
  split; [lia|]. split; [lia|]. split; [|exact Hback].
  rewrite (set_cover_position_run t t' c _ move r s Hclamp Hcur Hest Hmove).
  unfold _get_shade_move in Hmove. rewrite Hcls, Hhd in Hmove.
  injection Hmove as <-. reflexivity.
Qed.

(** A top rail at 60 percent over a bottom rail at 30 percent. *)
Definition top_rail_60_over_30 : state :=
  initial PowerViewShadeTDBUTop
    {| position1 := Some (POS_KIND_PRIMARY, MIN_POSITION);
       position2 := Some (POS_KIND_SECONDARY, MAX_POSITION) |}
    {| position1 := Some (POS_KIND_PRIMARY, MIN_POSITION);
       position2 := Some (POS_KIND_SECONDARY, MIN_POSITION) |}
    {| primary := 19660; secondary := 39321; vane := 0 |}.

Lemma top_rail_clamped_witness :
  exists top bottom commanded,
    hd_position_to_hass (primary (positions top_rail_60_over_30)) MAX_POSITION
    = Ok bottom
    /\ _clamp_cover_limit 90 top_rail_60_over_30 = Ok top
    /\ top = Z.min 90 (100 - bottom)
    /\ 0 <= top /\ top + bottom <= 100
    /\ sent (fst (_async_set_cover_position 90 (Ok None) top_rail_60_over_30))
       = sent top_rail_60_over_30
         ++ [{| position1 := Some (POS_KIND_PRIMARY,
                                   primary (positions top_rail_60_over_30));
                position2 := Some (POS_KIND_SECONDARY, commanded) |}]
    /\ hd_position_to_hass commanded MAX_POSITION = Ok top.
Proof.
  apply (top_rail_clamped top_rail_60_over_30 90 None);
    [reflexivity|simpl; lia|simpl; lia|lia].
Defined.

(** X14: for rails in the vendor range the clamp never raises and never
    raises the target: the clamped target is at most the requested one,
    stays non-negative for a non-negative request, is the request itself
    for every entity that is not one of the two rails of a dual-rail
    shade, and clamping it again changes nothing. *)
Theorem clamp_only_lowers (s : state) (t : Z) :
  0 <= primary (positions s) <= 65535 ->
  0 <= secondary (positions s) <= 65535 ->
  exists t',
    _clamp_cover_limit t s = Ok t'
    /\ t' <= t
    /\ (0 <= t -> 0 <= t')
    /\ (is_tdbu (cls (self s)) = false -> t' = t)
    /\ _clamp_cover_limit t' s = Ok t'.
Proof.
  intros Hp Hs.
  pose proof (nearest_percent_range _ Hp) as Rp.
  pose proof (nearest_percent_range _ Hs) as Rs.
  pose proof (hd_position_to_hass_exact _ Hp) as Ep.
  pose proof (hd_position_to_hass_exact _ Hs) as Es.
  unfold _clamp_cover_limit.
  destruct (cls (self s)); rewrite ?Ep, ?Es; unfold bind;
    eexists; (split; [reflexivity|]);
    (split; [lia|]); (split; [intros; lia|]);
    (split; [intros; (reflexivity || discriminate)|]);
    f_equal; lia.
Qed.

Lemma clamp_only_lowers_witness :
  exists t',
    _clamp_cover_limit 75 bottom_rail_30_under_60 = Ok t'
    /\ t' <= 75
    /\ (0 <= 75 -> 0 <= t')
    /\ (is_tdbu (cls (self bottom_rail_30_under_60)) = false -> t' = 75)
    /\ _clamp_cover_limit t' bottom_rail_30_under_60 = Ok t'.
Proof.
  apply (clamp_only_lowers bottom_rail_30_under_60 75); simpl; lia.
Defined.

(** X21: a set-position on a tilt-capable entity (primary rail in the
    vendor range, target in [0, 100]) that the hub answers brings the
    vane to its minimum, the hub not echoing it back; the positions the
    hub's answer carries are applied after that and win. *)
Theorem move_resets_vane (s : state) (t : Z) (r : option position_data) :
  is_tilt (cls (self s)) = true ->
  0 <= primary (positions s) <= 65535 ->
  0 <= t <= 100 ->
  let after := _async_set_cover_position t (Ok r) s in
  let optimistic :=
    update_shade_position POS_KIND_VANE MIN_POSITION (positions s) in
  snd after = Ok tt
  /\ positions (fst after)
     = match r with
       | Some d => update_from_position_data d optimistic
       | None => optimistic
       end
  /\ (r = None ->
      vane (positions (fst after)) = MIN_POSITION
      /\ primary (positions (fst after)) = primary (positions s)).
Proof.
  intros Htilt Hp Ht after optimistic. subst after optimistic.
  pose proof (nearest_percent_range _ Hp) as Rp.
  assert (Hclamp : _clamp_cover_limit t s = Ok t)
    by (unfold _clamp_cover_limit; destruct (cls (self s)); (reflexivity || discriminate)).
  assert (Hcur : current_cover_position s
                 = Ok (nearest_percent (primary (positions s)))).
  { unfold current_cover_position.
    destruct (cls (self s)); try discriminate; apply hd_position_to_hass_exact, Hp. }
  assert (Hmove : _get_shade_move t s
                  = Ok {| request := {| position1 :=
                                          Some (POS_KIND_PRIMARY, truncated_position t);
                                        position2 := None |};
                          new_positions := [(POS_KIND_VANE, MIN_POSITION)] |}).
  { unfold _get_shade_move. rewrite (hass_position_to_hd_exact t Ht).
    destruct (cls (self s)); (reflexivity || discriminate). }
  assert (Hest : est_time_to_complete_transition
                   (Z.abs (nearest_percent (primary (positions s)) - t))
                 = Ok (1 + 40 * Z.abs (nearest_percent (primary (positions s)) - t) / 100))
    by (apply est_time_exact; lia).
  rewrite (set_cover_position_run t t _ _ _ r s Hclamp Hcur Hest Hmove).
  split; [reflexivity|]. split; [destruct r; reflexivity|].
  intros ->. split; reflexivity.
Qed.

Lemma move_resets_vane_witness :
  let s := with_positions {| primary := 0; secondary := 0; vane := 16000 |}
             silhouette_shade in
  let after := _async_set_cover_position 40 (Ok None) s in
  snd after = Ok tt
  /\ vane (positions (fst after)) = MIN_POSITION
  /\ primary (positions (fst after)) = 0.
Proof.
  destruct (move_resets_vane
              (with_positions {| primary := 0; secondary := 0; vane := 16000 |}
                 silhouette_shade) 40 None) as (H1 & _ & H3);
    [reflexivity|simpl; lia|lia|].
  split; [exact H1|]. apply H3. reflexivity.
Defined.

(** A scheduling followed by a move read off the entity, when nothing
    raises. *)
Lemma scheduled_move_run (steps est : Z) (f : state -> result PowerviewShadeMove)
  (move : PowerviewShadeMove) (r : option position_data) (s : state) :
  est_time_to_complete_transition steps = Ok est ->
  f (armed est (cancelled s)) = Ok move ->
  (_async_schedule_update_for_transition steps >>
   (mv <~ eval f ;; _async_execute_move mv (Ok r))) s
  = (moved est move r s, Ok tt).
Proof.
  intros Hest Hf. unfold mbind at 1. rewrite schedule_result, Hest.
  unfold mbind at 1, eval. rewrite Hf. destruct r; reflexivity.
Qed.

(** X26: open-tilt and close-tilt on a tilt entity whose positions are
    in the vendor range, when the hub answers: the request carries the
    vane alone, at the top of the class's vane scale for open and at
    the minimum for close; the primary position is taken to be at its
    minimum, the hub not echoing it back, and the positions of the
    hub's answer are applied after that; the moving flags are left as
    they were. *)
Theorem tilt_open_close_requests (s : state) (r : option position_data) :
  is_tilt (cls (self s)) = true ->
  in_vendor_range s ->
  let opened := async_open_cover_tilt (Ok r) s in
  let closed := async_close_cover_tilt (Ok r) s in
  let optimistic :=
    update_shade_position POS_KIND_PRIMARY MIN_POSITION (positions s) in
  let answered :=
    match r with
    | Some d => update_from_position_data d optimistic
    | None => optimistic
    end in
  snd opened = Ok tt
  /\ snd closed = Ok tt
  /\ sent (fst opened)
     = sent s ++ [{| position1 := Some (POS_KIND_VANE, vane_scale (cls (self s)));
                     position2 := None |}]
  /\ sent (fst closed)
     = sent s ++ [{| position1 := Some (POS_KIND_VANE, MIN_POSITION);
                     position2 := None |}]
  /\ positions (fst opened) = answered
  /\ positions (fst closed) = answered
  /\ (r = None ->
      primary (positions (fst opened)) = MIN_POSITION
      /\ vane (positions (fst opened)) = vane (positions s)
      /\ primary (positions (fst closed)) = MIN_POSITION
      /\ vane (positions (fst closed)) = vane (positions s))
  /\ _attr_is_opening (self (fst opened)) = _attr_is_opening (self s)
  /\ _attr_is_closing (self (fst opened)) = _attr_is_closing (self s)
  /\ _attr_is_opening (self (fst closed)) = _attr_is_opening (self s)
  /\ _attr_is_closing (self (fst closed)) = _attr_is_closing (self s).
Proof.
  intros Htilt Hr opened closed optimistic answered.
  pose proof (transition_steps_sum s Hr) as Hsum.
  destruct (movement_percent_ranges s Hr) as (Rp & Rd & _).
  assert (Hopen_est : est_time_to_complete_transition (100 - steps_sum s)
                      = Ok (1 + Z.quot (40 * (100 - steps_sum s)) 100))
    by (apply est_time_truncates; lia).
  assert (Hclose_est : est_time_to_complete_transition (steps_sum s)
                       = Ok (1 + 40 * steps_sum s / 100))
    by (apply est_time_exact; lia).
  assert (Hopen_move : forall est,
            open_tilt_position (armed est (cancelled s))
            = Ok {| request :=
                      {| position1 := Some (POS_KIND_VANE, vane_scale (cls (self s)));
                         position2 := None |};
                    new_positions := [(POS_KIND_PRIMARY, MIN_POSITION)] |}).
  { intros est. unfold open_tilt_position.
    change (cls (self (armed est (cancelled s)))) with (cls (self s)).
    destruct (cls (self s)); (reflexivity || discriminate). }
  assert (Hclose_move : forall est,
            close_tilt_position (armed est (cancelled s))
            = Ok {| request :=
                      {| position1 := Some (POS_KIND_VANE, MIN_POSITION);
                         position2 := None |};
                    new_positions := [(POS_KIND_PRIMARY, MIN_POSITION)] |}).
  { intros est. unfold close_tilt_position.
    change (cls (self (armed est (cancelled s)))) with (cls (self s)).
    destruct (cls (self s)); (reflexivity || discriminate). }
  pose proof (scheduled_move_run _ _ open_tilt_position _ r s
                Hopen_est (Hopen_move _)) as Hopened.
  pose proof (scheduled_move_run _ _ close_tilt_position _ r s
                Hclose_est (Hclose_move _)) as Hclosed.
  match type of Hopened with
  | _ = ?after =>
      assert (Eopened : async_open_cover_tilt (Ok r) s = after)
        by (unfold async_open_cover_tilt, mbind at 1, eval; rewrite Hsum;
            exact Hopened)
  end.
  match type of Hclosed with
  | _ = ?after =>
      assert (Eclosed : async_close_cover_tilt (Ok r) s = after)
        by (unfold async_close_cover_tilt, mbind at 1, eval; rewrite Hsum;
            exact Hclosed)
  end.
  subst opened closed answered optimistic.
  rewrite Eopened, Eclosed.
  split; [reflexivity|]. split; [reflexivity|].
  split; [reflexivity|]. split; [reflexivity|].
  split; [destruct r; reflexivity|]. split; [destruct r; reflexivity|].
  split; [intros ->; repeat split|].
  split; [reflexivity|]. split; [reflexivity|]. split; reflexivity.
Qed.

Lemma tilt_open_close_witness :
  let s := with_positions {| primary := 0; secondary := 0; vane := 16000 |}
             silhouette_shade in
  sent (fst (async_open_cover_tilt (Ok None) s))
  = [{| position1 := Some (POS_KIND_VANE, 32767); position2 := None |}]
  /\ sent (fst (async_close_cover_tilt (Ok None) s))
     = [{| position1 := Some (POS_KIND_VANE, 0); position2 := None |}]
  /\ positions (fst (async_open_cover_tilt (Ok None) s))
     = {| primary := 0; secondary := 0; vane := 16000 |}.
Proof.
  destruct (tilt_open_close_requests
              (with_positions {| primary := 0; secondary := 0; vane := 16000 |}
                 silhouette_shade) None) as (_ & _ & H3 & H4 & H5 & _).
  - reflexivity.
  - split; [simpl; lia|]. split; [discriminate|]. intros _. simpl. lia.
  - split; [exact H3|]. split; [exact H4|exact H5].
Defined.

(** X24: after a set-position that the hub answers (rails in the vendor
    range, target in [0, 100]) the entity is marked opening exactly
    when the clamped target is above the current position and closing
    exactly when it is below: never both, and neither when the shade
    is already there. *)
Theorem set_position_direction (s : state) (t : Z) (r : option position_data) :
  0 <= primary (positions s) <= 65535 ->
  0 <= secondary (positions s) <= 65535 ->
  0 <= t <= 100 ->
  exists t' c,
    _clamp_cover_limit t s = Ok t'
    /\ current_cover_position s = Ok c
    /\ let after := _async_set_cover_position t (Ok r) s in
       snd after = Ok tt
       /\ _attr_is_opening (self (fst after)) = (c <? t')
       /\ _attr_is_closing (self (fst after)) = (t' <? c)
       /\ (_attr_is_opening (self (fst after))
           && _attr_is_closing (self (fst after)) = false)
       /\ (t' = c ->
           _attr_is_opening (self (fst after)) = false
           /\ _attr_is_closing (self (fst after)) = false).
Proof.
  intros Hp Hs Ht.
  destruct (set_cover_position_values t s Hp Hs Ht)
    as (t' & c & commanded & move & Hclamp & Hcur & Ht' & Hc & Hest & Hhd & Hback
        & Hmove & _).
  exists t', c. split; [exact Hclamp|]. split; [exact Hcur|].
  intros after. subst after.
  rewrite (set_cover_position_run t t' c _ move r s Hclamp Hcur Hest Hmove).
  simpl. split; [reflexivity|]. split; [reflexivity|]. split; [reflexivity|].
  split.
  - destruct (Z.ltb_spec c t'), (Z.ltb_spec t' c); simpl; (reflexivity || lia).
  - intros ->. rewrite Z.ltb_irrefl. split; reflexivity.
Qed.

Lemma set_position_direction_witness :
  exists t' c,
    _clamp_cover_limit 50 shade_at_20 = Ok t'
    /\ current_cover_position shade_at_20 = Ok c
    /\ let after := _async_set_cover_position 50 (Ok None) shade_at_20 in
       snd after = Ok tt
       /\ _attr_is_opening (self (fst after)) = (c <? t')
       /\ _attr_is_closing (self (fst after)) = (t' <? c)
       /\ (_attr_is_opening (self (fst after))
           && _attr_is_closing (self (fst after)) = false)
       /\ (t' = c ->
           _attr_is_opening (self (fst after)) = false
           /\ _attr_is_closing (self (fst after)) = false).
Proof.
  apply (set_position_direction shade_at_20 50 None); simpl; lia.
Defined.

(** *** Further properties of the delayed calls *)

Lemma update_in_progress_iff (s : state) :
  _update_in_progress s = true <->
  _scheduled_transition_update (self s) <> None
  \/ _forced_resync (self s) <> None.
Proof.
  unfold _update_in_progress.
  destruct (_scheduled_transition_update (self s)), (_forced_resync (self s));
    split; try reflexivity; try discriminate;
    try (intros _; left; discriminate); try (intros _; right; discriminate).
  intros [F|F]; now elim F.
Qed.



(** X16: once a transition poll has been scheduled, and as long as a
    handle is held, a refresh of the entity and a broadcast of the
    coordinator are skipped: they return without touching the state,
    the refresh is not even attempted (an exception it would raise is
    not raised), so the positions stay those the move left. *)
Theorem updates_skipped_while_polling (s : state) (steps : Z)
  (refreshed : result position_data) (group : position_data) :
  snd (_async_schedule_update_for_transition steps s) = Ok tt ->
  let s' := fst (_async_schedule_update_for_transition steps s) in
  _update_in_progress s' = true
  /\ async_update refreshed s' = (s', Ok tt)
  /\ _async_update_shade_from_group group s' = (s', Ok tt)
  /\ (forall s'', _update_in_progress s'' = true ->
      async_update refreshed s'' = (s'', Ok tt)
      /\ _async_update_shade_from_group group s'' = (s'', Ok tt)).
Proof.
  intros Hok s'.
  assert (Hskip : forall s'', _update_in_progress s'' = true ->
            async_update refreshed s'' = (s'', Ok tt)
            /\ _async_update_shade_from_group group s'' = (s'', Ok tt)).
  { intros s'' Hbusy. unfold async_update, _async_update_shade_from_group.
    rewrite Hbusy. split; reflexivity. }
  assert (Hbusy : _update_in_progress s' = true).
  { subst s'. revert Hok. rewrite schedule_result.
    destruct (est_time_to_complete_transition steps); [reflexivity|discriminate]. }
  split; [exact Hbusy|].
  split; [apply Hskip, Hbusy|]. split; [apply Hskip, Hbusy|exact Hskip].
Qed.

Lemma updates_skipped_witness :
  let s' := fst (_async_schedule_update_for_transition 80 shade_at_20) in
  _update_in_progress s' = true
  /\ async_update (Raise TimeoutError) s' = (s', Ok tt).
Proof.
  destruct (updates_skipped_while_polling shade_at_20 80 (Raise TimeoutError)
              {| position1 := None; position2 := None |}) as (H1 & H2 & _).
  - vm_compute. reflexivity.
  - split; assumption.
Defined.

(** X17: the two-phase cycle of the delayed polls.  From an entity with
    no delayed call pending, a scheduling arms one transition poll; when
    it fires, the callback refreshes the positions and arms one resync
    poll, 60 seconds later, in its place; when that fires, the callback
    refreshes again and the entity is back with nothing pending and no
    update in progress. *)
Theorem poll_cycle_returns_to_idle (s : state) (steps est : Z)
  (d d' : position_data) :
  timers s = [] ->
  _scheduled_transition_update (self s) = None ->
  _forced_resync (self s) = None ->
  est_time_to_complete_transition steps = Ok est ->
  let poll := {| timer_handle := next_handle s; timer_delay := est;
                 timer_action := cb_complete_schedule_update |} in
  let resync := {| timer_handle := S (next_handle s); timer_delay := RESYNC_DELAY;
                   timer_action := cb_force_resync |} in
  let s1 := fst (_async_schedule_update_for_transition steps s) in
  let s2 := fst (_async_complete_schedule_update (Ok d) (fire poll s1)) in
  let s3 := fst (_async_force_resync (Ok d') (fire resync s2)) in
  (timers s1 = [poll] /\ _update_in_progress s1 = true)
  /\ (timers s2 = [resync]
      /\ _scheduled_transition_update (self s2) = None
      /\ _forced_resync (self s2) = Some (timer_handle resync)
      /\ positions s2 = update_from_position_data d (positions s))
  /\ (timers s3 = []
      /\ _update_in_progress s3 = false
      /\ positions s3
         = update_from_position_data d' (update_from_position_data d (positions s))
      /\ _attr_is_opening (self s3) = false
      /\ _attr_is_closing (self s3) = false).
Proof.
  intros Htimers Htr Hrs Hest poll resync s1 s2 s3.
  subst s3 s2 s1 poll resync. rewrite schedule_result, Hest.
  destruct s as [[c tr rs o cl] op clo cur tm nh snt].
  simpl in Htimers, Htr, Hrs. subst tm tr rs.
  unfold _async_complete_schedule_update, _async_force_resync,
    _async_force_refresh_state, async_update, complete_schedule_update_begin,
    complete_schedule_update_end, force_resync_begin, fire, cancel_timer,
    has_handle, mbind, modify, eval, async_call_later, _update_in_progress.
  simpl. rewrite !Nat.eqb_refl. simpl. rewrite !Nat.eqb_refl. simpl.
  repeat split.
Qed.

Lemma poll_cycle_witness :
  let poll := {| timer_handle := 0; timer_delay := 33;
                 timer_action := cb_complete_schedule_update |} in
  let resync := {| timer_handle := 1; timer_delay := 60;
                   timer_action := cb_force_resync |} in
  let d := {| position1 := Some (POS_KIND_PRIMARY, 65535); position2 := None |} in
  let s1 := fst (_async_schedule_update_for_transition 80 shade_at_20) in
  let s2 := fst (_async_complete_schedule_update (Ok d) (fire poll s1)) in
  let s3 := fst (_async_force_resync (Ok d) (fire resync s2)) in
  timers s1 = [poll] /\ timers s2 = [resync] /\ timers s3 = []
  /\ _update_in_progress s3 = false
  /\ primary (positions s3) = 65535.
Proof.
  destruct (poll_cycle_returns_to_idle shade_at_20 80 33
              {| position1 := Some (POS_KIND_PRIMARY, 65535); position2 := None |}
              {| position1 := Some (POS_KIND_PRIMARY, 65535); position2 := None |})
    as ((H1 & _) & (H2 & _) & (H3 & H4 & H5 & _));
    try (vm_compute; reflexivity).
  split; [exact H1|]. split; [exact H2|]. split; [exact H3|].
  split; [exact H4|]. exact (f_equal primary H5).
Defined.

(** A run in which a second open request arrives while the callback of
    the first poll awaits its refresh. *)
Definition hub_data : position_data :=
  {| position1 := Some (POS_KIND_PRIMARY, 13107); position2 := None |}.

Definition first_poll : timer :=
  {| timer_handle := 0; timer_delay := 33;
     timer_action := cb_complete_schedule_update |}.

Definition second_poll : timer :=
  {| timer_handle := 1; timer_delay := 33;
     timer_action := cb_complete_schedule_update |}.

Definition first_resync : timer :=
  {| timer_handle := 2; timer_delay := RESYNC_DELAY;
     timer_action := cb_force_resync |}.

Definition second_resync : timer :=
  {| timer_handle := 3; timer_delay := RESYNC_DELAY;
     timer_action := cb_force_resync |}.

Definition awaiting_refresh : state :=
  fst (transition_fires first_poll (shade_opening, [])).

Definition opened_again : state :=
  fst (run (call_open (Ok None)) awaiting_refresh).

Definition first_resync_armed : state :=
  fst (complete_schedule_update_resume (Ok hub_data) opened_again).

Definition second_resync_armed : state :=
  fst (transition_fires second_poll (first_resync_armed, [])).

Lemma reachable_loop_second_resync_armed :
  reachable_loop (second_resync_armed, []).
Proof.
  assert (H1 : reachable_loop (shade_opening, [])).
  { apply (reachable_loop_step (shade_at_20, []));
      [apply reachable_loop_initial|apply (step_call (call_open (Ok None)))]. }
  assert (H2 : reachable_loop (awaiting_refresh, [cb_complete_schedule_update])).
  { replace (awaiting_refresh, [cb_complete_schedule_update])
      with (transition_fires first_poll (shade_opening, []))
      by (vm_compute; reflexivity).
    apply (reachable_loop_step _ _ H1).
    apply step_transition_fires; [vm_compute; auto|reflexivity]. }
  assert (H3 : reachable_loop (opened_again, [cb_complete_schedule_update])).
  { apply (reachable_loop_step _ _ H2). apply step_call. }
  assert (H4 : reachable_loop (first_resync_armed, [])).
  { apply (reachable_loop_step _ _ H3).
    apply (step_transition_refreshed (Ok hub_data) opened_again [] []). }
  replace (second_resync_armed, [])
    with (transition_fires second_poll (first_resync_armed, []))
    by (vm_compute; reflexivity).
  apply (reachable_loop_step _ _ H4).
  apply step_transition_fires; [vm_compute; auto|reflexivity].
Qed.

Lemma reachable_second_resync_armed : reachable second_resync_armed.
Proof. exists []. apply reachable_loop_second_resync_armed. Qed.

(** A pending call that no handle stands for survives a scheduling; the
    resync poll the handle stands for does not. *)
Lemma unheld_timer_survives (t : timer) (steps : Z) (s : state) :
  In t (timers s) ->
  _scheduled_transition_update (self s) <> Some (timer_handle t) ->
  _forced_resync (self s) <> Some (timer_handle t) ->
  In t (timers (fst (_async_schedule_update_for_transition steps s))).
Proof.
  intros Hin Htr Hrs.
  assert (Hstill : In t (timers (cancelled s)))
    by (apply in_timers_cancelled; auto).
  rewrite schedule_result.
  destruct (est_time_to_complete_transition steps); [|exact Hstill].
  apply in_or_app. now left.
Qed.

Lemma held_resync_cancelled (t : timer) (steps : Z) (s : state) :
  _forced_resync (self s) = Some (timer_handle t) ->
  timer_action t = cb_force_resync ->
  ~ In t (timers (fst (_async_schedule_update_for_transition steps s))).
Proof.
  intros Hheld Hact Hin.
  assert (Hgone : ~ In t (timers (cancelled s))).
  { intros Hstill. apply in_timers_cancelled in Hstill. tauto. }
  rewrite schedule_result in Hin.
  destruct (est_time_to_complete_transition steps) as [est|e]; [|auto].
  apply in_app_or in Hin as [Hin|[Hin|[]]]; [auto|].
  subst t. discriminate Hact.
Qed.

(** C5: the code, on the run in which a second open request arrives
    while the callback of the first transition poll awaits its refresh.
    The callback, resumed, arms a resync poll (handle 2) while the
    second transition poll (handle 1) is pending; that poll fires
    before the resync does, and its callback, finding an update in
    progress, arms another resync poll (handle 3) over the handle of
    the first without cancelling it.  A third open request then cancels
    the resync poll of handle 3 alone: the resync poll of handle 2,
    pending before the new transition poll is scheduled, is pending
    after it is armed. *)
Theorem older_resync_poll_survives_open :
  reachable second_resync_armed
  /\ timers shade_opening = [first_poll]
  /\ timers awaiting_refresh = []
  /\ timers opened_again = [second_poll]
  /\ timers first_resync_armed = [second_poll; first_resync]
  /\ timers second_resync_armed = [first_resync; second_resync]
  /\ _scheduled_transition_update (self second_resync_armed) = None
  /\ _forced_resync (self second_resync_armed) = Some 3%nat
  /\ timer_action first_resync = cb_force_resync
  /\ timers (fst (async_open_cover (Ok None) second_resync_armed))
     = [first_resync;
        {| timer_handle := 4; timer_delay := 33;
           timer_action := cb_complete_schedule_update |}]
  /\ _forced_resync (self (fst (async_open_cover (Ok None) second_resync_armed)))
     = None.
Proof.
  split; [apply reachable_second_resync_armed|].
  repeat (split; [vm_compute; reflexivity|]).
  vm_compute; reflexivity.
Qed.

(** X18: the resync handle can lose track of a pending resync poll.
    When a move is requested while the callback of a transition poll
    awaits its refresh, the resync that callback arms is still pending
    when the new poll fires, and the next resync replaces its handle
    without cancelling it: a state is reached with two resync polls
    pending and one handle, where a scheduling cancels the newer poll
    and leaves the older one pending. *)
Theorem resync_poll_can_outlive_scheduling :
  exists s older,
    reachable s
    /\ timers s = [older; second_resync]
    /\ timer_action older = cb_force_resync
    /\ _forced_resync (self s) = Some (timer_handle second_resync)
    /\ _forced_resync (self s) <> Some (timer_handle older)
    /\ forall steps,
         In older (timers (fst (_async_schedule_update_for_transition steps s)))
         /\ ~ In second_resync
                (timers (fst (_async_schedule_update_for_transition steps s))).
Proof.
  exists second_resync_armed, first_resync.
  assert (Htimers : timers second_resync_armed = [first_resync; second_resync])
    by (vm_compute; reflexivity).
  assert (Hforced : _forced_resync (self second_resync_armed) = Some 3%nat)
    by (vm_compute; reflexivity).
  assert (Hsched : _scheduled_transition_update (self second_resync_armed) = None)
    by (vm_compute; reflexivity).
  split; [apply reachable_second_resync_armed|].
  split; [exact Htimers|].
  split; [reflexivity|].
  split; [exact Hforced|].
  split; [rewrite Hforced; discriminate|].
  intros steps. split.
  - apply unheld_timer_survives.
    + rewrite Htimers. now left.
    + rewrite Hsched. discriminate.
    + rewrite Hforced. discriminate.
  - apply held_resync_cancelled; [exact Hforced|reflexivity].
Qed.

(** The rail or vane an entity with two positions adds to its primary
    position. *)
Definition second_position (s : state) : Z :=
  if is_tdbu (cls (self s)) then secondary (positions s) else vane (positions s).

(** X19: on the two rails of a dual-rail shade and on a tilt entity of
    full vane scale the steps are the sum of both percentages: close
    schedules the poll at [1 + floor(40 * sum / 100)] seconds, open at
    [1 + trunc(40 * (100 - sum) / 100)].  The open delay is the floor
    form as long as the sum is at most 100; when the two percentages
    add up to 103 or more, the steps are negative and the delay handed
    to the host is zero or negative. *)
Theorem open_close_delay_two_positions (s : state)
  (response : result (option position_data)) :
  reachable s ->
  is_tdbu (cls (self s)) = true \/ cls (self s) = PowerViewShadeWithTilt ->
  0 <= primary (positions s) <= 65535 ->
  0 <= second_position s <= 65535 ->
  let sum := nearest_percent (primary (positions s))
             + nearest_percent (second_position s) in
  transition_steps s = Ok sum
  /\ scheduled_delay (fst (async_close_cover response s))
     = Some (1 + 40 * sum / 100)
  /\ scheduled_delay (fst (async_open_cover response s))
     = Some (1 + Z.quot (40 * (100 - sum)) 100)
  /\ (sum <= 100 ->
      scheduled_delay (fst (async_open_cover response s))
      = Some (1 + 40 * (100 - sum) / 100))
  /\ (103 <= sum -> 1 + Z.quot (40 * (100 - sum)) 100 <= 0).
Proof.
  intros Hreach Hcls Hp Ho sum. pose proof (reachable_wf s Hreach) as W.
  pose proof (nearest_percent_range _ Hp) as Rp.
  pose proof (nearest_percent_range _ Ho) as Ro.
  assert (Hsteps : transition_steps s = Ok sum).
  { subst sum. unfold transition_steps, second_position in *.
    destruct Hcls as [Hcls|Hcls].
    - destruct (cls (self s)); try discriminate;
        cbv beta iota delta [is_tdbu] in *;
        rewrite (hd_position_to_hass_exact _ Hp), (hd_position_to_hass_exact _ Ho);
        reflexivity.
    - rewrite Hcls in *. cbv beta iota delta [is_tdbu _max_tilt] in *.
      rewrite (hd_position_to_hass_exact _ Hp). unfold bind.
      rewrite (hd_position_to_hass_exact _ Ho). reflexivity. }
  assert (Hopen : scheduled_delay (fst (async_open_cover response s))
                  = Some (1 + Z.quot (40 * (100 - sum)) 100)).
  { rewrite (same_timers_scheduled_delay _ _ (open_cover_timers _ response s Hsteps)).
    apply schedule_delay; [exact W|]. apply est_time_truncates.
    fold sum in Rp. subst sum. lia. }
  split; [exact Hsteps|]. split; [|split; [exact Hopen|split]].
  - rewrite (same_timers_scheduled_delay _ _ (close_cover_timers _ response s Hsteps)).
    apply schedule_delay; [exact W|]. apply est_time_exact. subst sum. lia.
  - intros Hsum. rewrite Hopen. rewrite Z.quot_div_nonneg by lia. reflexivity.
  - intros Hsum.
    assert (Hq : Z.quot (40 * (100 - sum)) 100 <= Z.quot (40 * (100 - 103)) 100)
      by (apply Z.quot_le_mono; lia).
    change (Z.quot (40 * (100 - 103)) 100) with (-1) in Hq. lia.
Qed.

Lemma open_close_delay_witness :
  transition_steps tilt_shade_stale = Ok 150
  /\ scheduled_delay (fst (async_close_cover (Ok None) tilt_shade_stale)) = Some 61
  /\ scheduled_delay (fst (async_open_cover (Ok None) tilt_shade_stale)) = Some (-19).
Proof.
  destruct (open_close_delay_two_positions tilt_shade_stale (Ok None))
    as (H1 & H2 & H3 & _).
  - apply reachable_initial.
  - now right.
  - simpl. lia.
  - unfold second_position. simpl. lia.
  - split; [exact H1|]. split; [exact H2|exact H3].
Defined.

(** X20: the poll is armed before the request is sent, so a move the
    hub fails leaves it armed: when the open request raises, the
    exception goes through to the caller, the positions and the
    moving flags are untouched, the request counts as sent, and the
    transition poll stays pending with the update marked in progress. *)
Theorem failed_move_leaves_poll_armed (s : state) (k est : Z) (e : exn) :
  reachable s ->
  transition_steps s = Ok k ->
  est_time_to_complete_transition (100 - k) = Ok est ->
  let after := async_open_cover (Raise e) s in
  snd after = Raise e
  /\ positions (fst after) = positions s
  /\ _attr_is_opening (self (fst after)) = _attr_is_opening (self s)
  /\ _attr_is_closing (self (fst after)) = _attr_is_closing (self s)
  /\ sent (fst after) = sent s ++ [shade_open_position s]
  /\ scheduled_delay (fst after) = Some est
  /\ _update_in_progress (fst after) = true.
Proof.
  intros Hreach Hk Hest after. pose proof (reachable_wf s Hreach) as W.
  assert (Hdelay : scheduled_delay (fst after) = Some est).
  { subst after.
    rewrite (same_timers_scheduled_delay _ _ (open_cover_timers _ (Raise e) s Hk)).
    apply schedule_delay; assumption. }
  assert (Hrun : after
                 = (with_sent (sent s ++ [shade_open_position s])
                      (armed est (cancelled s)), Raise e)).
  { subst after. unfold async_open_cover, mbind at 1, eval. rewrite Hk.
    unfold mbind at 1. rewrite schedule_result, Hest. reflexivity. }
  split; [rewrite Hrun; reflexivity|].
  split; [rewrite Hrun; reflexivity|].
  split; [rewrite Hrun; reflexivity|].
  split; [rewrite Hrun; reflexivity|].
  split; [rewrite Hrun; reflexivity|].
  split; [exact Hdelay|]. rewrite Hrun. reflexivity.
Qed.

Lemma failed_move_witness :
  let after := async_open_cover (Raise (OtherError "PvApiError")) shade_at_20 in
  snd after = Raise (OtherError "PvApiError")
  /\ positions (fst after) = positions shade_at_20
  /\ scheduled_delay (fst after) = Some 33.
Proof.
  destruct (failed_move_leaves_poll_armed shade_at_20 20 33
              (OtherError "PvApiError")) as (H1 & H2 & _ & _ & _ & H6 & _).
  - apply reachable_initial.
  - vm_compute. reflexivity.
  - vm_compute. reflexivity.
  - split; [exact H1|]. split; [exact H2|exact H6].
Defined.

(** *** Setup, when a refresh fails *)

Section SetupErrors.

Variable refresh : raw_shade -> result raw_shade.
Variable room_data : list (Z * string).

Lemma add_shades_stops (before rest : list raw_shade) (raw : raw_shade) (e : exn) :
  (forall raw' e', In raw' before -> refresh raw' = Raise e' -> e' = TimeoutError) ->
  refresh raw = Raise e ->
  e <> TimeoutError ->
  forall acc,
    snd (add_shades refresh room_data (before ++ raw :: rest) acc) = Raise e.
Proof.
  intros Hbefore Hraw Hne.
  induction before as [|raw' before IH]; intros acc; simpl.
  - unfold refreshed_shade. simpl. rewrite Hraw.
    destruct e; try reflexivity. now elim Hne.
  - rewrite (refreshed_shade_after refresh raw')
      by (intros e'; apply Hbefore; now left).
    assert (Hrest : forall r e', In r before -> refresh r = Raise e' -> e' = TimeoutError)
      by (intros r e' Hin; apply Hbefore; now right).
    destruct (raw_positions (raw_data (after_refresh refresh raw'))); apply IH, Hrest.
Qed.

(** X22: only the timeout of a refresh is suppressed.  When the refresh
    of a shade raises anything else, the setup raises that exception
    and hands no entity to the host, not even those of the shades that
    came before it in the data. *)
Theorem setup_stops_at_failed_refresh
  (before rest : list raw_shade) (raw : raw_shade) (e : exn) :
  (forall raw' e', In raw' before -> refresh raw' = Raise e' -> e' = TimeoutError) ->
  refresh raw = Raise e ->
  e <> TimeoutError ->
  snd (async_setup_entry refresh room_data (before ++ raw :: rest)) = Raise e.
Proof.
  intros Hbefore Hraw Hne.
  pose proof (add_shades_stops before rest raw e Hbefore Hraw Hne empty_setup) as H.
  unfold async_setup_entry.
  destruct (add_shades refresh room_data (before ++ raw :: rest) empty_setup)
    as [acc [u|e']]; simpl in *; [discriminate|].
  injection H as ->. reflexivity.
Qed.

End SetupErrors.

Definition failing_refresh (raw : raw_shade) : result raw_shade :=
  if raw_id raw =? 3 then Raise (OtherError "PvApiConnectionError")
  else sample_refresh raw.

Lemma setup_stops_witness :
  snd (async_setup_entry failing_refresh [] sample_shade_data)
  = Raise (OtherError "PvApiConnectionError").
Proof.
  apply (setup_stops_at_failed_refresh failing_refresh []
           [shade_without_positions; tdbu_shade] [] late_shade).
  - intros raw' e' [<-|[<-|[]]]; vm_compute; congruence.
  - reflexivity.
  - discriminate.
Defined.

End PowerviewFacts.
